(** * DOSpacesWrapper: a client over an S3-compatible object store

    A shallow embedding of [DOSpacesWrapper.py].  Every method of the
    class is a computation in a small state-and-exception monad [Py]
    whose state holds the instance ([self]), the remote service, the
    sequence of requests the client has issued and the lines printed.

    The remote service and the SDK are not part of the repository.
    They are modelled here the way the wrapper sees them: a request
    either returns a response or raises [ClientError]; a script of
    injected faults lets any request fail. *)

From Stdlib Require Import ZArith Lia Ascii String.
From stdpp Require Import base list strings gmap sorting pretty.

Local Open Scope string_scope.
Local Open Scope Z_scope.
Local Open Scope list_scope.

(** ** Python data *)

Abbreviation bytes := (list Byte.byte).

(** [fileData]: either a [bytes] value or an object with a [read]
    method.  A readable object is represented by the bytes it has not
    delivered yet. *)
Inductive FileData :=
  | Bytes (b : bytes)
  | FileLike (unread : bytes).

(** [hasattr(fileData, 'read')] *)
Definition hasattr_read (fileData : FileData) : bool :=
  match fileData with
  | Bytes _ => false
  | FileLike _ => true
  end.

(** [f.read(size)]: at most [size] bytes, everything that is left when
    [size] is negative; the second component is the object afterwards. *)
Definition read (unread : bytes) (size : Z) : bytes * bytes :=
  if size <? 0 then (unread, [])
  else (take (Z.to_nat size) unread, drop (Z.to_nat size) unread).

(** [not chunk] on a [bytes] value *)
Definition is_empty (chunk : bytes) : bool :=
  match chunk with
  | [] => true
  | _ :: _ => false
  end.

(** ** Exceptions *)

(** [e.response['Error']] of a botocore [ClientError], with the name of
    the operation that failed. *)
Record ErrorResponse := mkError {
  Code : string;
  Message : string;
  operation_name : string
}.

Inductive PyExc :=
  | ClientError (response : ErrorResponse)
  | Exception (msg : string)
  | AttributeError (msg : string)
  | ValueError (msg : string)
  | IndexError (msg : string)
  | OutOfFuel.

Inductive Outcome (A : Type) :=
  | Return (a : A)
  | Raise (e : PyExc).
Arguments Return {A} a.
Arguments Raise {A} e.

(** [str(e)] as botocore formats a [ClientError] *)
Definition str_ClientError (r : ErrorResponse) : string :=
  "An error occurred (" +:+ Code r +:+ ") when calling the "
    +:+ operation_name r +:+ " operation: " +:+ Message r.

(** ** Strings *)

(** [s.split(sep)] for a non-empty [sep]: [skip] counts the characters
    of a separator occurrence still to be passed over, [cur] is the
    piece being collected. *)
Fixpoint split_from (sep : string) (skip : nat) (cur : string) (s : string)
  : list string :=
  match s with
  | EmptyString => [cur]
  | String c s' =>
      match skip with
      | S k => split_from sep k cur s'
      | O =>
          if String.prefix sep s
          then cur :: split_from sep (String.length sep - 1) "" s'
          else split_from sep 0 (cur +:+ String c "") s'
      end
  end.

Definition str_split (s sep : string) : Outcome (list string) :=
  match sep with
  | EmptyString => Raise (ValueError "empty separator")
  | _ => Return (split_from sep 0 "" s)
  end.

(** [l[-1]] *)
Definition index_last {A} (l : list A) : Outcome A :=
  match last l with
  | Some x => Return x
  | None => Raise (IndexError "list index out of range")
  end.

(** [d.replace(old, new)] where [d] is a [dict]: dictionaries have no
    [replace] attribute, so the attribute lookup raises. *)
Definition dict_replace {D A} (d old : D) (new : string) : Outcome A :=
  Raise (AttributeError "'dict' object has no attribute 'replace'").

(** ** The instance *)

(** [os.environ], restricted to the variables the constructor reads;
    loading the configuration is outside the client, the variables are
    taken to be set. *)
Record Environ := mkEnviron {
  DO_SPACES_REGION : string;
  DO_SPACES_KEY_ID : string;
  DO_SPACES_SECRET_KEY : string;
  DO_SPACES_BUCKET_NAME : string
}.

(** [{'max_attempts': ..., 'mode': ...}] *)
Record RetryDict := mkRetryDict {
  max_attempts : Z;
  mode : string
}.

(** [botocore.config.Config(...)]: an option that is not given is
    [None]. *)
Record Config := mkConfig {
  cfg_signature_version : option string;
  cfg_s3 : option (list (string * string));
  cfg_retries : option RetryDict
}.

(** The arguments [session.client(...)] was called with. *)
Record Client := mkClient {
  service_name : string;
  region_name : string;
  endpoint_url : string;
  aws_access_key_id : string;
  aws_secret_access_key : string;
  verify : option bool;
  config : Config
}.

Inductive Session := boto3_Session.

Record DOSpacesWrapper := mkDOSpacesWrapper {
  session : Session;
  client : Client;
  signature_version : string;
  use_ssl : bool;
  file_overwrite : bool;
  aws_media_location : string;
  object_parameters : list (string * string);
  default_acl : string;
  bucket_name : string;
  querystring_expire : Z;
  querystring_auth : bool;
  max_memory_size : Z;
  retries : RetryDict;
  encryption_scheme : list (string * string)
}.

Definition __init__ (environ : Environ) : DOSpacesWrapper :=
  let session := boto3_Session in
  {| session := session;
     client :=
       {| service_name := "s3";
          region_name := DO_SPACES_REGION environ;
          endpoint_url := "https://nyc3.digitaloceanspaces.com";
          aws_access_key_id := DO_SPACES_KEY_ID environ;
          aws_secret_access_key := DO_SPACES_SECRET_KEY environ;
          verify := None;
          config :=
            {| cfg_signature_version := None;
               cfg_s3 := Some [("addressing_style", "virtual")];
               cfg_retries := None |} |};
     signature_version := "s3v4";
     use_ssl := true;
     file_overwrite := true;
     aws_media_location := "storage";
     object_parameters := [("CacheControl", "max-age=86400")];
     default_acl := "public-read-write";
     bucket_name := DO_SPACES_BUCKET_NAME environ;
     querystring_expire := 3600;
     querystring_auth := true;
     max_memory_size := 0;
     retries := {| max_attempts := 5; mode := "standard" |};
     encryption_scheme := [("ServerSideEncryption", "AES256")] |}.

(** ** Requests *)

(** [{'PartNumber': ..., 'ETag': ...}] *)
Record Part := mkPart {
  PartNumber : Z;
  ETag : string
}.

(** The keyword arguments of [put_object] the model tracks; an argument
    that is not passed is [None]. *)
Record PutObject := mkPutObject {
  po_Bucket : string;
  po_Key : string;
  po_Body : FileData;
  po_ACL : option string;
  po_CacheControl : option string;
  po_ServerSideEncryption : option string
}.

(** One request of the client to the service.  A paginated listing is
    one request per page: [Marker] and [ContinuationToken] are [None]
    on the first page. *)
Inductive Request :=
  | head_bucket (Bucket : string)
  | list_buckets
  | create_bucket (Bucket : string)
  | put_object (args : PutObject)
  | head_object (Bucket Key : string)
  | delete_object (Bucket Key : string)
  | list_objects (Bucket Prefix : string) (Marker : option string)
  | list_objects_v2 (Bucket Prefix Delimiter : string)
      (ContinuationToken : option string)
  | delete_objects (Bucket : string) (Objects : list string)
  | get_object (Bucket Key : string)
  | create_multipart_upload (Bucket Key : string)
  | upload_part (Body : bytes) (Bucket Key : string) (PartNumber : Z)
      (UploadId : string)
  | complete_multipart_upload (Bucket Key : string) (Parts : list Part)
      (UploadId : string).

Definition request_name (r : Request) : string :=
  match r with
  | head_bucket _ => "HeadBucket"
  | list_buckets => "ListBuckets"
  | create_bucket _ => "CreateBucket"
  | put_object _ => "PutObject"
  | head_object _ _ => "HeadObject"
  | delete_object _ _ => "DeleteObject"
  | list_objects _ _ _ => "ListObjects"
  | list_objects_v2 _ _ _ _ => "ListObjectsV2"
  | delete_objects _ _ => "DeleteObjects"
  | get_object _ _ => "GetObject"
  | create_multipart_upload _ _ => "CreateMultipartUpload"
  | upload_part _ _ _ _ _ => "UploadPart"
  | complete_multipart_upload _ _ _ _ => "CompleteMultipartUpload"
  end.

(** ** The remote service

    Buckets map keys to object contents.  A multipart upload session
    owns the parts submitted so far, by part number.  [faults] is a
    script of rejections: every request takes the head of the script
    and fails with it when it is [Some (code, message)].  Limits of the
    service (sizes, counts, permissions, transport) are not modelled;
    a request refused for such a reason is a scripted fault. *)

Record UploadSession := mkUploadSession {
  mu_Bucket : string;
  mu_Key : string;
  mu_parts : gmap Z (string * bytes)
}.

Record Spaces := mkSpaces {
  buckets : gmap string (gmap string bytes);
  uploads : gmap string UploadSession;
  upload_counter : nat;
  etag_of : bytes → string;
  faults : list (option (string * string))
}.

Definition set_buckets (b : gmap string (gmap string bytes)) (s : Spaces)
  : Spaces :=
  mkSpaces b (uploads s) (upload_counter s) (etag_of s) (faults s).

Definition set_uploads (u : gmap string UploadSession) (n : nat)
  (s : Spaces) : Spaces :=
  mkSpaces (buckets s) u n (etag_of s) (faults s).

Definition set_faults (f : list (option (string * string))) (s : Spaces)
  : Spaces :=
  mkSpaces (buckets s) (uploads s) (upload_counter s) (etag_of s) f.

(** What the service answers: an error [(code, message)], or a result
    and the service afterwards. *)
Definition Reply (A : Type) : Type := (string * string) + (A * Spaces).

Definition NoSuchBucket : string * string :=
  ("NoSuchBucket", "The specified bucket does not exist").

Definition in_bucket {A} (Bucket : string) (s : Spaces)
  (k : gmap string bytes → Reply A) : Reply A :=
  match buckets s !! Bucket with
  | Some objects => k objects
  | None => inl NoSuchBucket
  end.

Definition serve_head_bucket (Bucket : string) (s : Spaces) : Reply unit :=
  match buckets s !! Bucket with
  | Some _ => inr (tt, s)
  | None => inl ("404", "Not Found")
  end.

(** Keys are listed in the lexicographic order of their bytes. *)
Definition key_le (a b : string) : Prop := String.leb a b = true.

Global Instance key_le_dec : RelDecision key_le.
Proof. intros a b. unfold key_le. apply _. Defined.

Definition sorted_keys {V} (m : gmap string V) : list string :=
  merge_sort key_le (map_to_list m).*1.

Definition serve_list_buckets (s : Spaces) : Reply (list string) :=
  inr (sorted_keys (buckets s), s).

Definition serve_create_bucket (Bucket : string) (s : Spaces) : Reply unit :=
  match buckets s !! Bucket with
  | Some _ =>
      inl ("BucketAlreadyOwnedByYou",
           "Your previous request to create the named bucket succeeded and you already own it.")
  | None => inr (tt, set_buckets (<[Bucket := ∅]> (buckets s)) s)
  end.

(** The bytes of a request body: a readable object is read to its end. *)
Definition body_bytes (Body : FileData) : bytes :=
  match Body with
  | Bytes b => b
  | FileLike unread => unread
  end.

Definition serve_put_object (args : PutObject) (s : Spaces) : Reply unit :=
  in_bucket (po_Bucket args) s (λ objects,
    inr (tt, set_buckets
               (<[po_Bucket args :=
                    <[po_Key args := body_bytes (po_Body args)]> objects]>
                  (buckets s)) s)).

Definition serve_head_object (Bucket Key : string) (s : Spaces) : Reply unit :=
  match buckets s !! Bucket with
  | Some objects =>
      match objects !! Key with
      | Some _ => inr (tt, s)
      | None => inl ("404", "Not Found")
      end
  | None => inl ("404", "Not Found")
  end.

Definition serve_delete_object (Bucket Key : string) (s : Spaces)
  : Reply unit :=
  in_bucket Bucket s (λ objects,
    inr (tt, set_buckets (<[Bucket := delete Key objects]> (buckets s)) s)).

Definition serve_delete_objects (Bucket : string) (Objects : list string)
  (s : Spaces) : Reply unit :=
  in_bucket Bucket s (λ objects,
    inr (tt, set_buckets
               (<[Bucket := foldr delete objects Objects]> (buckets s)) s)).

Definition serve_get_object (Bucket Key : string) (s : Spaces)
  : Reply bytes :=
  in_bucket Bucket s (λ objects,
    match objects !! Key with
    | Some content => inr (content, s)
    | None => inl ("NoSuchKey", "The specified key does not exist.")
    end).

Definition serve_create_multipart_upload (Bucket Key : string) (s : Spaces)
  : Reply string :=
  in_bucket Bucket s (λ _,
    let UploadId := "upload-" +:+ pretty (upload_counter s) in
    inr (UploadId,
         set_uploads (<[UploadId := mkUploadSession Bucket Key ∅]> (uploads s))
           (S (upload_counter s)) s)).

Definition NoSuchUpload : string * string :=
  ("NoSuchUpload", "The specified multipart upload does not exist.").

Definition find_upload {A} (Bucket Key UploadId : string) (s : Spaces)
  (k : UploadSession → Reply A) : Reply A :=
  match uploads s !! UploadId with
  | Some u =>
      if decide (mu_Bucket u = Bucket ∧ mu_Key u = Key) then k u
      else inl NoSuchUpload
  | None => inl NoSuchUpload
  end.

(** The reply of [upload_part] is the part's [ETag]. *)
Definition serve_upload_part (Body : bytes) (Bucket Key : string)
  (PartNumber : Z) (UploadId : string) (s : Spaces) : Reply string :=
  find_upload Bucket Key UploadId s (λ u,
    let tag := etag_of s Body in
    inr (tag,
         set_uploads
           (<[UploadId :=
                mkUploadSession Bucket Key
                  (<[PartNumber := (tag, Body)]> (mu_parts u))]> (uploads s))
           (upload_counter s) s)).

(** Completion: the listed parts, in ascending part-number order, each
    with the tag the service issued for it; the object is the
    concatenation of their bodies in that order. *)
Fixpoint assemble (stored : gmap Z (string * bytes)) (prev : Z)
  (Parts : list Part) : (string * string) + bytes :=
  match Parts with
  | [] => inr []
  | p :: ps =>
      if decide (PartNumber p ≤ prev)
      then inl ("InvalidPartOrder", "The list of parts was not in ascending order.")
      else
        match stored !! PartNumber p with
        | Some (tag, body) =>
            if decide (tag = ETag p)
            then match assemble stored (PartNumber p) ps with
                 | inr rest => inr (body ++ rest)
                 | inl e => inl e
                 end
            else inl ("InvalidPart", "One or more of the specified parts could not be found.")
        | None =>
            inl ("InvalidPart", "One or more of the specified parts could not be found.")
        end
  end.

Definition serve_complete_multipart_upload (Bucket Key : string)
  (Parts : list Part) (UploadId : string) (s : Spaces) : Reply unit :=
  find_upload Bucket Key UploadId s (λ u,
    in_bucket Bucket s (λ objects,
      match assemble (mu_parts u) 0 Parts with
      | inr content =>
          inr (tt,
               set_uploads (delete UploadId (uploads s)) (upload_counter s)
                 (set_buckets
                    (<[Bucket := <[Key := content]> objects]> (buckets s)) s))
      | inl e => inl e
      end)).

(** *** Listings *)

(** [{'Key': ...}] and [{'Prefix': ...}], the elements of a page's
    ['Contents'] and ['CommonPrefixes']. *)
Record ObjectEntry := mkObjectEntry { Key : string }.
Record CommonPrefix := mkCommonPrefix { Prefix : string }.

(** One response of a listing.  A field is [None] when the response has
    no such key, which is the case when it would be empty. *)
Record Page := mkPage {
  Contents : option (list ObjectEntry);
  CommonPrefixes : option (list CommonPrefix);
  last_listed : option string
}.

Inductive Entry :=
  | EKey (k : string)
  | EPrefix (p : string).

Definition entry_name (e : Entry) : string :=
  match e with
  | EKey k => k
  | EPrefix p => p
  end.

(** [s[n:]] *)
Definition str_drop (n : nat) (s : string) : string :=
  String.substring n (String.length s - n) s.

(** How a key with prefix [prefix] is listed: grouped under the common
    prefix that ends at the first delimiter after [prefix], when there
    is one. *)
Definition classify (prefix : string) (Delimiter : option string)
  (k : string) : Entry :=
  match Delimiter with
  | None => EKey k
  | Some d =>
      let rest := str_drop (String.length prefix) k in
      match String.index 0 d rest with
      | Some i =>
          EPrefix (prefix +:+ String.substring 0 (i + String.length d) rest)
      | None => EKey k
      end
  end.

(** Keys under one common prefix are adjacent in a sorted listing; the
    prefix is listed once. *)
Fixpoint group_entries (seen : option string) (es : list Entry)
  : list Entry :=
  match es with
  | [] => []
  | EKey k :: es' => EKey k :: group_entries seen es'
  | EPrefix p :: es' =>
      if decide (seen = Some p) then group_entries seen es'
      else EPrefix p :: group_entries (Some p) es'
  end.

Definition listing (objects : gmap string bytes) (prefix : string)
  (Delimiter : option string) : list Entry :=
  group_entries None
    (classify prefix Delimiter <$>
       filter (λ k, String.prefix prefix k = true) (sorted_keys objects)).

Definition MaxKeys : nat := 1000.

(** Cuts a listing into responses of at most [MaxKeys] entries; an empty
    listing is one empty response. *)
Fixpoint cut_pages (room : nat) (cur : list Entry) (es : list Entry)
  : list (list Entry) :=
  match es with
  | [] => [cur]
  | e :: es' =>
      match room with
      | O => cur :: cut_pages (MaxKeys - 1) [e] es'
      | S room' => cut_pages room' (cur ++ [e]) es'
      end
  end.

Definition nonempty {A} (l : list A) : option (list A) :=
  match l with
  | [] => None
  | _ => Some l
  end.

Definition to_page (es : list Entry) : Page :=
  {| Contents :=
       nonempty (omap (λ e, match e with
                            | EKey k => Some (mkObjectEntry k)
                            | EPrefix _ => None
                            end) es);
     CommonPrefixes :=
       nonempty (omap (λ e, match e with
                            | EPrefix p => Some (mkCommonPrefix p)
                            | EKey _ => None
                            end) es);
     last_listed := entry_name <$> last es |}.

Definition pages_of (objects : gmap string bytes) (prefix : string)
  (Delimiter : option string) : list Page :=
  to_page <$> cut_pages MaxKeys [] (listing objects prefix Delimiter).

(** ** The monad of the client *)

Record World := mkWorld {
  self : DOSpacesWrapper;
  remote : Spaces;
  requests : list Request;
  stdout : list string
}.

Definition Py (A : Type) : Type := World → Outcome A * World.

Global Instance Py_ret : MRet Py := λ A a w, (Return a, w).

Global Instance Py_bind : MBind Py := λ A B f m w,
  match m w with
  | (Return a, w') => f a w'
  | (Raise e, w') => (Raise e, w')
  end.

Definition raise {A} (e : PyExc) : Py A := λ w, (Raise e, w).

(** A pure computation that may raise. *)
Definition lift {A} (o : Outcome A) : Py A := λ w, (o, w).

Definition get_self : Py DOSpacesWrapper := λ w, (Return (self w), w).

Definition print (line : string) : Py unit := λ w,
  (Return tt, mkWorld (self w) (remote w) (requests w) (stdout w ++ [line])).

(** [try: body  except ClientError as e: handler(e)]; any other
    exception passes through. *)
Definition try_except_ClientError {A} (body : Py A)
  (handler : ErrorResponse → Py A) : Py A := λ w,
  match body w with
  | (Raise (ClientError e), w') => handler e w'
  | r => r
  end.

(** A request to the service: recorded, then refused by the script or
    answered by [serve]. *)
Definition remote_call {A} (req : Request) (serve : Spaces → Reply A)
  : Py A := λ w,
  let reqs := requests w ++ [req] in
  let refuse (e : string * string) (s : Spaces) : Outcome A * World :=
    (Raise (ClientError (mkError e.1 e.2 (request_name req))),
     mkWorld (self w) s reqs (stdout w)) in
  let answer (s : Spaces) : Outcome A * World :=
    match serve s with
    | inl e => refuse e s
    | inr (a, s') => (Return a, mkWorld (self w) s' reqs (stdout w))
    end in
  match faults (remote w) with
  | Some e :: script => refuse e (set_faults script (remote w))
  | None :: script => answer (set_faults script (remote w))
  | [] => answer (remote w)
  end.

(** *** The methods of [self.client] the wrapper calls *)

Definition client_head_bucket (Bucket : string) : Py unit :=
  remote_call (head_bucket Bucket) (serve_head_bucket Bucket).

(** [response['Buckets']], by name *)
Definition client_list_buckets : Py (list string) :=
  remote_call list_buckets serve_list_buckets.

Definition client_create_bucket (Bucket : string) : Py unit :=
  remote_call (create_bucket Bucket) (serve_create_bucket Bucket).

(** [put_object(Bucket=..., Key=..., Body=...)] *)
Definition client_put_object (Bucket Key : string) (Body : FileData)
  : Py unit :=
  let args := mkPutObject Bucket Key Body None None None in
  remote_call (put_object args) (serve_put_object args).

Definition client_head_object (Bucket Key : string) : Py unit :=
  remote_call (head_object Bucket Key) (serve_head_object Bucket Key).

Definition client_delete_object (Bucket Key : string) : Py unit :=
  remote_call (delete_object Bucket Key) (serve_delete_object Bucket Key).

Definition client_delete_objects (Bucket : string) (Objects : list string)
  : Py unit :=
  remote_call (delete_objects Bucket Objects)
    (serve_delete_objects Bucket Objects).

(** [response['Body']._raw_stream], as the bytes not read yet *)
Definition client_get_object (Bucket Key : string) : Py bytes :=
  remote_call (get_object Bucket Key) (serve_get_object Bucket Key).

(** [response['UploadId']] *)
Definition client_create_multipart_upload (Bucket Key : string) : Py string :=
  remote_call (create_multipart_upload Bucket Key)
    (serve_create_multipart_upload Bucket Key).

(** [response['ETag']] *)
Definition client_upload_part (Body : bytes) (Bucket Key : string)
  (PartNumber : Z) (UploadId : string) : Py string :=
  remote_call (upload_part Body Bucket Key PartNumber UploadId)
    (serve_upload_part Body Bucket Key PartNumber UploadId).

Definition client_complete_multipart_upload (Bucket Key : string)
  (Parts : list Part) (UploadId : string) : Py unit :=
  remote_call (complete_multipart_upload Bucket Key Parts UploadId)
    (serve_complete_multipart_upload Bucket Key Parts UploadId).

(** *** Paginators

    [for page in paginator.paginate(...)] fetches one response per
    iteration and runs the loop body on it before asking for the next
    one.  The responses after the first continue from the last name
    listed, so what the loop bodies of this client do in between
    (deleting the keys of the page just received) does not change
    them: the pages are those of the listing at the first request. *)
Fixpoint fetch_pages {A} (request : option string → Request)
  (token : option string) (pages : list Page) (body : Page → A → Py A)
  (acc : A) : Py A :=
  match pages with
  | [] => mret acc
  | page :: pages' =>
      _ ← remote_call (request token) (λ s, inr (tt, s));
      acc' ← body page acc;
      fetch_pages request (last_listed page) pages' body acc'
  end.

Definition for_page_in {A} (request : option string → Request)
  (Bucket Prefix : string) (Delimiter : option string)
  (body : Page → A → Py A) (acc : A) : Py A := λ w,
  match buckets (remote w) !! Bucket with
  | Some objects =>
      fetch_pages request None (pages_of objects Prefix Delimiter) body acc w
  | None =>
      (_ ← remote_call (A := unit) (request None) (λ _, inl NoSuchBucket);
       mret acc) w
  end.

Definition paginate_list_objects {A} (Bucket Prefix : string) :=
  for_page_in (A := A) (list_objects Bucket Prefix) Bucket Prefix None.

Definition paginate_list_objects_v2 {A} (Bucket Prefix Delimiter : string) :=
  for_page_in (A := A) (list_objects_v2 Bucket Prefix Delimiter)
    Bucket Prefix (Some Delimiter).

(** ** The methods of [DOSpacesWrapper] *)

Definition connectToBucket (bucketName : option string)
  : Py (option string) :=
  self ← get_self;
  let bucketName :=
    match bucketName with
    | None => bucket_name self
    | Some b => b
    end in
  try_except_ClientError
    (_ ← client_head_bucket bucketName;
     _ ← print ("Successfully connected to bucket: " +:+ bucketName);
     mret (Some bucketName))
    (λ e,
       let error_code := Code e in
       if decide (error_code = "404")
       then _ ← print ("Bucket '" +:+ bucketName +:+ "' does not exist.");
            mret None
       else _ ← print ("An error occurred: " +:+ str_ClientError e);
            mret None).

Fixpoint print_each (lines : list string) : Py unit :=
  match lines with
  | [] => mret tt
  | line :: lines' => _ ← print line; print_each lines'
  end.

Definition listBuckets : Py unit :=
  try_except_ClientError
    (response ← client_list_buckets;
     _ ← print "DigitalOcean Spaces buckets:";
     print_each ((λ bucket, "  " +:+ bucket) <$> response))
    (λ e, print ("An error occurred: " +:+ str_ClientError e)).

Definition createBucket : Py unit :=
  self ← get_self;
  try_except_ClientError
    (_ ← client_create_bucket (bucket_name self);
     print ("Successfully created bucket: " +:+ bucket_name self))
    (λ e,
       let error_code := Code e in
       if decide (error_code = "BucketAlreadyOwnedByYou")
       then print ("Bucket '" +:+ bucket_name self +:+ "' already exists.")
       else print ("An error occurred: " +:+ str_ClientError e)).

Definition createFolder (folderPath : string) : Py unit :=
  self ← get_self;
  try_except_ClientError
    (_ ← client_put_object (bucket_name self) (folderPath +:+ "/") (Bytes []);
     print ("Successfully created folder: " +:+ folderPath))
    (λ e, print ("An error occurred while creating the folder: "
                   +:+ str_ClientError e)).

Definition folderExists (folderPath : string) : Py bool :=
  self ← get_self;
  try_except_ClientError
    (_ ← client_head_object (bucket_name self) (folderPath +:+ "/");
     mret true)
    (λ e,
       let error_code := Code e in
       if decide (error_code = "404") then mret false
       else _ ← print ("An error occurred while checking folder existence: "
                         +:+ str_ClientError e);
            mret false).

Definition fileExists (filePath : string) : Py bool :=
  self ← get_self;
  try_except_ClientError
    (_ ← client_head_object (bucket_name self) filePath;
     mret true)
    (λ e,
       let error_code := Code e in
       if decide (error_code = "404") then mret false
       else _ ← print ("An error occurred while checking file existence: "
                         +:+ str_ClientError e);
            mret false).

Definition uploadFile (filePath : string) (fileData : FileData) : Py unit :=
  self ← get_self;
  try_except_ClientError
    (_ ← client_put_object (bucket_name self) filePath fileData;
     print ("Successfully uploaded file: " +:+ filePath))
    (λ e, print ("An error occurred while uploading the file: "
                   +:+ str_ClientError e)).

Definition updateFile (filePath : string) (fileData : FileData) : Py unit :=
  self ← get_self;
  try_except_ClientError
    (_ ← client_put_object (bucket_name self) filePath fileData;
     print ("Successfully updated file: " +:+ filePath))
    (λ e, print ("An error occurred while updating the file: "
                   +:+ str_ClientError e)).

Definition deleteFile (filePath : string) : Py unit :=
  self ← get_self;
  try_except_ClientError
    (_ ← client_delete_object (bucket_name self) filePath;
     print ("Successfully deleted file: " +:+ filePath))
    (λ e, print ("An error occurred while deleting the file: "
                   +:+ str_ClientError e)).

Definition deleteFolder (folderPath : string) : Py unit :=
  self ← get_self;
  try_except_ClientError
    (_ ← paginate_list_objects (bucket_name self) folderPath
           (λ page (_ : unit),
              match Contents page with
              | Some contents =>
                  let delete_keys := Key <$> contents in
                  client_delete_objects (bucket_name self) delete_keys
              | None => mret tt
              end) tt;
     print ("Successfully deleted folder: " +:+ folderPath))
    (λ e, print ("An error occurred while deleting the folder: "
                   +:+ str_ClientError e)).

(** [folders.extend(f(x) for x in xs)]: the generator is consumed
    element by element, an exception in it leaves [extend]. *)
Fixpoint extend_with {X A} (f : X → Outcome A) (folders : list A)
  (xs : list X) : Outcome (list A) :=
  match xs with
  | [] => Return folders
  | x :: xs' =>
      match f x with
      | Return a => extend_with f (folders ++ [a]) xs'
      | Raise e => Raise e
      end
  end.

Definition listFolders (prefix : string) : Py (list string) :=
  self ← get_self;
  try_except_ClientError
    (paginate_list_objects_v2 (bucket_name self) prefix "/"
       (λ page folders,
          match CommonPrefixes page with
          | Some common_prefixes =>
              (* the loop variable is named [prefix] too *)
              lift (extend_with (λ prefix, dict_replace prefix prefix "")
                      folders common_prefixes)
          | None => mret folders
          end) [])
    (λ e, _ ← print ("An error occurred while listing folders: "
                       +:+ str_ClientError e);
          mret []).

Definition listFolders_prefix_default : string := "".

(** The body of [for page in page_iterator] in [listFolderContents]:
    the two inner loops append to [contents]. *)
Definition listFolderContents_page (folderPath : string) (page : Page)
  (contents : list string) : Py (list string) :=
  let contents :=
    match Contents page with
    | Some objects =>
        foldl (λ contents object,
                 let key := Key object in
                 if decide (key ≠ folderPath +:+ "/")
                 then contents ++ [key]   (* not the folder path itself *)
                 else contents)
          contents objects
    | None => contents
    end in
  let contents :=
    match CommonPrefixes page with
    | Some prefixes =>
        foldl (λ contents prefix,
                 if decide (Prefix prefix ≠ folderPath +:+ "/")
                 then contents ++ [Prefix prefix]
                 else contents)
          contents prefixes
    | None => contents
    end in
  mret contents.

Definition listFolderContents (folderPath : string) : Py (list string) :=
  _ ← print ("Listing folder contents of " +:+ " " +:+ folderPath);
  exists_ ← folderExists folderPath;
  if negb exists_
  then raise (Exception ("Folder " +:+ folderPath +:+ " does not exist"))
  else
    self ← get_self;
    try_except_ClientError
      (paginate_list_objects_v2 (bucket_name self) (folderPath +:+ "/") "/"
         (listFolderContents_page folderPath) [])
      (λ e, _ ← print ("An error occurred while listing folder contents: "
                         +:+ str_ClientError e);
            mret []).

(** [while True: chunk = stream.read(chunkSize); if not chunk: break;
    yield chunk].  A generator is run to its end, the result is the
    list of the chunks it yields.  Every turn that does not break
    consumes at least one byte, so a fuel of one more than the bytes
    left is never used up ([read_chunks_total]). *)
Fixpoint read_chunks (fuel : nat) (stream : bytes) (chunkSize : Z)
  (yielded : list bytes) : Outcome (list bytes) :=
  match fuel with
  | O => Raise OutOfFuel
  | S fuel' =>
      let '(chunk, stream') := read stream chunkSize in
      if is_empty chunk then Return yielded
      else read_chunks fuel' stream' chunkSize (yielded ++ [chunk])
  end.

Definition streamFileContent (filePath : string) (chunkSize : Z)
  : Py (list bytes) :=
  self ← get_self;
  try_except_ClientError
    (stream ← client_get_object (bucket_name self) filePath;
     lift (read_chunks (S (length stream)) stream chunkSize []))
    (λ e, _ ← print ("An error occurred while streaming the file content: "
                       +:+ str_ClientError e);
          mret []).

Definition streamFileContent_chunkSize_default : Z := 8192.

Definition readFile (filePath : string) (chunkSize : Z) : Py (list bytes) :=
  self ← get_self;
  try_except_ClientError
    (stream ← client_get_object (bucket_name self) filePath;
     lift (read_chunks (S (length stream)) stream chunkSize []))
    (λ e, _ ← print ("An error occurred while reading from the file: "
                       +:+ str_ClientError e);
          mret []).

Definition readFile_chunkSize_default : Z := 8388608.

Definition multipartUpload (filePath : string) : Py (option string) :=
  self ← get_self;
  try_except_ClientError
    (response ← client_create_multipart_upload (bucket_name self) filePath;
     mret (Some response))
    (λ e, _ ← print ("An error occurred while initiating the multipart upload: "
                       +:+ str_ClientError e);
          mret None).

(** The [while True] loop of [uploadFileChunked]; [part_number] and
    [parts] are its local variables.  Fuel as in [read_chunks]
    ([upload_parts_total]). *)
Fixpoint upload_parts (fuel : nat) (filePath : string) (fileData : bytes)
  (chunkSize : Z) (upload_id : string) (part_number : Z) (parts : list Part)
  : Py (list Part) :=
  match fuel with
  | O => raise OutOfFuel
  | S fuel' =>
      let '(chunk, fileData') := read fileData chunkSize in
      if is_empty chunk then mret parts
      else
        self ← get_self;
        part ← client_upload_part chunk (bucket_name self) filePath
                 part_number upload_id;
        upload_parts fuel' filePath fileData' chunkSize upload_id
          (part_number + 1)
          (parts ++ [{| PartNumber := part_number; ETag := part |}])
  end.

Definition uploadFileChunked (filePath : string) (fileData : FileData)
  (chunkSize : Z) : Py unit :=
  self ← get_self;
  try_except_ClientError
    (_ ← match fileData with
         | FileLike unread =>
             let parts := [] in
             let part_number := 1 in
             upload_id ← client_create_multipart_upload (bucket_name self)
                           filePath;
             parts ← upload_parts (S (length unread)) filePath unread chunkSize
                       upload_id part_number parts;
             client_complete_multipart_upload (bucket_name self) filePath
               parts upload_id
         | Bytes _ =>
             client_put_object (bucket_name self) filePath fileData
         end;
     print ("Successfully uploaded file: " +:+ filePath))
    (λ e, print ("An error occurred while uploading the file: "
                   +:+ str_ClientError e)).

Definition uploadFileChunked_chunkSize_default : Z := 8388608.

(** [getActualFileNames] takes no [self]. *)
Fixpoint getActualFileNames_loop (filePaths : list string)
  (filenames : list string) : Outcome (list string) :=
  match filePaths with
  | [] => Return filenames
  | path :: filePaths' =>
      match str_split path "/" with
      | Return pieces =>
          match index_last pieces with
          | Return filename =>
              getActualFileNames_loop filePaths' (filenames ++ [filename])
          | Raise e => Raise e
          end
      | Raise e => Raise e
      end
  end.

Definition getActualFileNames (filePaths : list string) : Py (list string) :=
  lift (getActualFileNames_loop filePaths []).

(** ** The public surface *)

Inductive Operation :=
  | ConnectToBucket (bucketName : option string)
  | ListBuckets
  | CreateBucket
  | CreateFolder (folderPath : string)
  | FolderExists (folderPath : string)
  | FileExists (filePath : string)
  | UploadFile (filePath : string) (fileData : FileData)
  | UpdateFile (filePath : string) (fileData : FileData)
  | DeleteFile (filePath : string)
  | DeleteFolder (folderPath : string)
  | ListFolders (prefix : string)
  | ListFolderContents (folderPath : string)
  | StreamFileContent (filePath : string) (chunkSize : Z)
  | ReadFile (filePath : string) (chunkSize : Z)
  | MultipartUpload (filePath : string)
  | UploadFileChunked (filePath : string) (fileData : FileData) (chunkSize : Z)
  | GetActualFileNames (filePaths : list string).

(** What an operation gives back to its caller. *)
Inductive Value :=
  | VNone
  | VBool (b : bool)
  | VStr (s : string)
  | VList (l : list string)
  | VChunks (l : list bytes).

Definition returning {A} (f : A → Value) (m : Py A) : Py Value :=
  a ← m; mret (f a).

Definition run (op : Operation) : Py Value :=
  match op with
  | ConnectToBucket bucketName =>
      returning (λ r, match r with Some b => VStr b | None => VNone end)
        (connectToBucket bucketName)
  | ListBuckets => returning (λ _, VNone) listBuckets
  | CreateBucket => returning (λ _, VNone) createBucket
  | CreateFolder folderPath => returning (λ _, VNone) (createFolder folderPath)
  | FolderExists folderPath => returning VBool (folderExists folderPath)
  | FileExists filePath => returning VBool (fileExists filePath)
  | UploadFile filePath fileData =>
      returning (λ _, VNone) (uploadFile filePath fileData)
  | UpdateFile filePath fileData =>
      returning (λ _, VNone) (updateFile filePath fileData)
  | DeleteFile filePath => returning (λ _, VNone) (deleteFile filePath)
  | DeleteFolder folderPath => returning (λ _, VNone) (deleteFolder folderPath)
  | ListFolders prefix => returning VList (listFolders prefix)
  | ListFolderContents folderPath =>
      returning VList (listFolderContents folderPath)
  | StreamFileContent filePath chunkSize =>
      returning VChunks (streamFileContent filePath chunkSize)
  | ReadFile filePath chunkSize =>
      returning VChunks (readFile filePath chunkSize)
  | MultipartUpload filePath =>
      returning (λ r, match r with Some b => VStr b | None => VNone end)
        (multipartUpload filePath)
  | UploadFileChunked filePath fileData chunkSize =>
      returning (λ _, VNone) (uploadFileChunked filePath fileData chunkSize)
  | GetActualFileNames filePaths =>
      returning VList (getActualFileNames filePaths)
  end.

(** ** Vocabulary of the statements *)

Definition is_slash (c : ascii) : bool := Ascii.eqb "/" c.

Fixpoint has_slash (s : string) : bool :=
  match s with
  | EmptyString => false
  | String c s' => is_slash c || has_slash s'
  end.

(** The part of a path after its last ['/']: the whole path when it has
    none. *)
Fixpoint after_last_slash (s : string) : string :=
  match s with
  | EmptyString => ""
  | String c s' =>
      if has_slash s' then after_last_slash s'
      else if is_slash c then s' else s
  end.

(** The successive non-empty reads of [chunkSize] bytes from a source. *)
Fixpoint chunked (fuel : nat) (unread : bytes) (chunkSize : Z) : list bytes :=
  match fuel with
  | O => []
  | S fuel' =>
      let '(chunk, unread') := read unread chunkSize in
      if is_empty chunk then [] else chunk :: chunked fuel' unread' chunkSize
  end.

Definition chunks_of (unread : bytes) (chunkSize : Z) : list bytes :=
  chunked (S (length unread)) unread chunkSize.

(** Parts numbered from [n] on, one per chunk, with the tags [tag]
    gives their bodies: as a completion list, as the requests that
    submit them, and as what a session holds once they are stored. *)
Fixpoint part_list (tag : bytes → string) (n : Z) (chunks : list bytes)
  : list Part :=
  match chunks with
  | [] => []
  | chunk :: chunks' =>
      {| PartNumber := n; ETag := tag chunk |} :: part_list tag (n + 1) chunks'
  end.

Fixpoint part_requests (Bucket Key UploadId : string) (n : Z)
  (chunks : list bytes) : list Request :=
  match chunks with
  | [] => []
  | chunk :: chunks' =>
      upload_part chunk Bucket Key n UploadId
        :: part_requests Bucket Key UploadId (n + 1) chunks'
  end.

Fixpoint store_parts (tag : bytes → string) (n : Z) (chunks : list bytes)
  (stored : gmap Z (string * bytes)) : gmap Z (string * bytes) :=
  match chunks with
  | [] => stored
  | chunk :: chunks' =>
      store_parts tag (n + 1) chunks' (<[n := (tag chunk, chunk)]> stored)
  end.

(** The bodies and the part numbers of the [upload_part] requests of a
    trace, in the order of the trace. *)
Definition part_bodies (reqs : list Request) : list bytes :=
  omap (λ r, match r with
             | upload_part Body _ _ _ _ => Some Body
             | _ => None
             end) reqs.

Definition part_numbers (reqs : list Request) : list Z :=
  omap (λ r, match r with
             | upload_part _ _ _ n _ => Some n
             | _ => None
             end) reqs.

(** The multipart requests of a trace. *)
Definition is_multipart (r : Request) : bool :=
  match r with
  | create_multipart_upload _ _
  | upload_part _ _ _ _ _
  | complete_multipart_upload _ _ _ _ => true
  | _ => false
  end.

(** A request that carries none of the optional object settings. *)
Definition bare (r : Request) : Prop :=
  match r with
  | put_object args =>
      po_ACL args = None ∧ po_CacheControl args = None
      ∧ po_ServerSideEncryption args = None
  | _ => True
  end.

(** The object stored under a key of the configured bucket. *)
Definition object_at (w : World) (Key : string) : option bytes :=
  objects ← buckets (remote w) !! bucket_name (self w); objects !! Key.

(** No scripted fault is pending and the configured bucket exists. *)
Definition serving (w : World) : Prop :=
  faults (remote w) = [] ∧ is_Some (buckets (remote w) !! bucket_name (self w)).

(** A computation moves the world along [R]. *)
Definition framed (R : World → World → Prop) {A} (m : Py A) : Prop :=
  ∀ w, R w (m w).2.

(** The requests of [w'] are those of [w] followed by bare ones. *)
Definition extends (w w' : World) : Prop :=
  ∃ new, requests w' = requests w ++ new ∧ Forall bare new.

(** A computation raises nothing but [ClientError]; a computation
    always returns. *)
Definition client_errors_only {A} (m : Py A) : Prop :=
  ∀ w, match (m w).1 with
       | Return _ | Raise (ClientError _) => True
       | Raise _ => False
       end.

Definition returns {A} (m : Py A) : Prop :=
  ∀ w, ∃ a, (m w).1 = Return a.

(** The policy of the two existence checks, for the check [check] that
    asks for [Key] and complains with [complaint]: [True] when the head
    request is answered, [False] when it is refused, and a line printed
    unless the refusal has code 404. *)
Definition exists_check (check : Py bool) (Bucket Key complaint : string)
  (w : World) : Prop :=
  match client_head_object Bucket Key w with
  | (Return _, w') => check w = (Return true, w')
  | (Raise (ClientError e), w') =>
      check w
      = (Return false,
         if decide (Code e = "404") then w'
         else (print (complaint +:+ str_ClientError e) w').2)
  | (Raise _, _) => False
  end.

(** Whether a computation returns. *)
Definition succeeds {A} (m : Py A) (w : World) : bool :=
  match (m w).1 with
  | Return _ => true
  | Raise _ => false
  end.

(** The keys an operation may write or delete. *)
Definition may_touch (op : Operation) (k : string) : bool :=
  match op with
  | CreateFolder folderPath => String.eqb (folderPath +:+ "/") k
  | UploadFile filePath _ | UpdateFile filePath _ | DeleteFile filePath
  | UploadFileChunked filePath _ _ => String.eqb filePath k
  | DeleteFolder folderPath => String.prefix folderPath k
  | _ => false
  end.

(** [w'] has the instance of [w] and, outside the keys [T], its
    objects. *)
Definition keeps (T : string → bool) (w w' : World) : Prop :=
  self w' = self w ∧ ∀ k, T k = false → object_at w' k = object_at w k.


(** Two runs with the same outcome, the same service afterwards, the
    same requests and the same instance: they differ in what they
    printed at most. *)
Definition same_effect {A} (r1 r2 : Outcome A * World) : Prop :=
  r1.1 = r2.1 ∧ remote r1.2 = remote r2.2
  ∧ requests r1.2 = requests r2.2 ∧ self r1.2 = self r2.2.

(** ** Worlds to run the client in *)

Definition demo_environ : Environ :=
  {| DO_SPACES_REGION := "nyc3";
     DO_SPACES_KEY_ID := "key-id";
     DO_SPACES_SECRET_KEY := "secret";
     DO_SPACES_BUCKET_NAME := "demo" |}.

(** A stand-in for the tag the service computes from a body. *)
Definition demo_etag (body : bytes) : string := pretty (length body).

(** A fresh client on a service that holds the bucket [demo] with the
    given objects and will refuse requests as the script says. *)
Definition demo_world (objects : gmap string bytes)
  (script : list (option (string * string))) : World :=
  {| self := __init__ demo_environ;
     remote :=
       {| buckets := {[ "demo" := objects ]};
          uploads := ∅;
          upload_counter := 0;
          etag_of := demo_etag;
          faults := script |};
     requests := [];
     stdout := [] |}.

Definition hello : bytes :=
  [Byte.x68; Byte.x65; Byte.x6c; Byte.x6c; Byte.x6f].

(** Keys nested under [a/]. *)
Definition nested_keys : gmap string bytes :=
  {[ "a/b/c/file.txt" := hello ]}.

(** A folder [a] with its marker and one file, and a sibling key that
    shares the characters of its name. *)
Definition folder_and_sibling : gmap string bytes :=
  {[ "a/" := []; "a/x.txt" := hello; "ab.txt" := hello ]}.

(** A folder [docs] holding one file, and the same folder empty. *)
Definition docs_folder : gmap string bytes :=
  {[ "docs/" := []; "docs/a.txt" := hello ]}.


Definition internal_error : string * string :=
  ("InternalError", "We encountered an internal error. Please try again.").

(** Twenty MiB of zero bytes. *)
Definition MiB : Z := 1048576.

Definition twenty_MiB : bytes := replicate (Z.to_nat (20 * MiB)) Byte.x00.

(** * Properties *)

(** ** File names *)

Lemma append_cons (c : ascii) (a b : string) :
  String c a +:+ b = String c (a +:+ b).
Proof. reflexivity. Qed.

Lemma append_nil (b : string) : "" +:+ b = b.
Proof. reflexivity. Qed.

Lemma has_slash_app (a b : string) :
  has_slash (a +:+ b) = has_slash a || has_slash b.
Proof.
  induction a as [|c a IH]; [done|].
  rewrite append_cons. cbn [has_slash]. rewrite IH. apply orb_assoc.
Qed.

Lemma after_last_slash_no_slash (s : string) :
  has_slash s = false → after_last_slash s = s.
Proof.
  destruct s as [|c s]; cbn [has_slash after_last_slash]; [done|].
  intros [-> ->]%orb_false_iff. done.
Qed.

Lemma after_last_slash_clean (s : string) :
  has_slash (after_last_slash s) = false.
Proof.
  induction s as [|c s IH]; cbn [has_slash after_last_slash]; [done|].
  destruct (has_slash s) eqn:Hs; [done|].
  destruct (is_slash c) eqn:Hc; [done|].
  cbn [has_slash]. by rewrite Hc, Hs.
Qed.

Lemma after_last_slash_suffix (s : string) :
  has_slash s = true →
  ∃ pre, s = pre +:+ "/" +:+ after_last_slash s.
Proof.
  induction s as [|c s IH]; cbn [has_slash after_last_slash]; [done|].
  destruct (has_slash s) eqn:Hs.
  - intros _. destruct (IH eq_refl) as [pre Hpre].
    exists (String c pre). rewrite append_cons. by rewrite <- Hpre.
  - rewrite orb_false_r. intros Hc. rewrite Hc.
    unfold is_slash in Hc. apply Ascii.eqb_eq in Hc as <-. by exists "".
Qed.

Lemma split_from_slash (cur : string) (c : ascii) (s : string) :
  split_from "/" 0 cur (String c s)
  = if is_slash c then cur :: split_from "/" 0 "" s
    else split_from "/" 0 (cur +:+ String c "") s.
Proof.
  cbn [split_from String.prefix String.length Nat.sub]. unfold is_slash.
  destruct (ascii_dec "/" c), (Ascii.eqb_spec "/" c); try congruence.
  by destruct s.
Qed.

Lemma split_from_cons (cur s : string) :
  ∃ piece pieces, split_from "/" 0 cur s = piece :: pieces.
Proof.
  revert cur. induction s as [|c s IH]; intros cur; [by eexists _, _|].
  rewrite split_from_slash. destruct (is_slash c); [by eexists _, _|apply IH].
Qed.

Lemma append_assoc_char (a : string) (c : ascii) (b : string) :
  (a +:+ String c "") +:+ b = a +:+ String c b.
Proof. induction a as [|x a IH]; rewrite ?append_cons; [done|congruence]. Qed.

Lemma append_empty_r (a : string) : a +:+ "" = a.
Proof. induction a as [|x a IH]; rewrite ?append_cons; [done|congruence]. Qed.

Lemma split_from_last (cur s : string) :
  last (split_from "/" 0 cur s)
  = Some (if has_slash s then after_last_slash s else cur +:+ s).
Proof.
  revert cur. induction s as [|c s IH]; intros cur.
  - cbn. by rewrite append_empty_r.
  - rewrite split_from_slash. cbn [has_slash after_last_slash].
    destruct (is_slash c) eqn:Hc; cbn [orb].
    + destruct (split_from_cons "" s) as (piece & pieces & Hs).
      specialize (IH ""). rewrite Hs in *.
      cbn [last]. rewrite IH. by destruct (has_slash s).
    + rewrite IH, append_assoc_char. by destruct (has_slash s).
Qed.

Lemma getActualFileNames_loop_map (filePaths filenames : list string) :
  getActualFileNames_loop filePaths filenames
  = Return (filenames ++ (after_last_slash <$> filePaths)).
Proof.
  revert filenames. induction filePaths as [|p ps IH]; intros acc.
  - cbn. by rewrite app_nil_r.
  - change (getActualFileNames_loop (p :: ps) acc) with
      (match index_last (split_from "/" 0 "" p) with
       | Return filename => getActualFileNames_loop ps (acc ++ [filename])
       | Raise e => Raise e
       end).
    unfold index_last. rewrite split_from_last, IH, <- app_assoc, fmap_cons.
    cbn [app].
    destruct (has_slash p) eqn:Hp; [done|].
    by rewrite after_last_slash_no_slash.
Qed.

(** C10. [getActualFileNames] returns, for every list of paths, the list
    of the same length whose i-th element is the part of the i-th path
    after its last ['/']: a name without ['/'] that the path ends with
    right after a ['/'], the whole path when it has no ['/'], and the
    empty string when it ends in ['/'].  The result depends on the
    list only, and the world is left as it was. *)
Theorem getActualFileNames_file_names (filePaths : list string) (w : World) :
  getActualFileNames filePaths w
    = (Return (after_last_slash <$> filePaths), w)
  ∧ length (after_last_slash <$> filePaths) = length filePaths
  ∧ (∀ i, (after_last_slash <$> filePaths) !! i
          = after_last_slash <$> filePaths !! i)
  ∧ (∀ path, has_slash (after_last_slash path) = false
       ∧ (if has_slash path
          then ∃ pre, path = pre +:+ "/" +:+ after_last_slash path
          else after_last_slash path = path))
  ∧ (∀ pre, after_last_slash (pre +:+ "/") = "").
Proof.
  split_and!.
  - unfold getActualFileNames, lift. by rewrite getActualFileNames_loop_map.
  - apply length_fmap.
  - intros i. apply list_lookup_fmap.
  - intros path. split; [apply after_last_slash_clean|].
    destruct (has_slash path) eqn:Hp.
    + by apply after_last_slash_suffix.
    + by apply after_last_slash_no_slash.
  - intros pre. induction pre as [|c pre IH]; [done|].
    rewrite append_cons. cbn [after_last_slash].
    rewrite has_slash_app. cbn [has_slash]. by rewrite orb_true_r.
Qed.

(** ** The monad *)

Lemma bind_run {A B} (m : Py A) (f : A → Py B) (w : World) :
  (m ≫= f) w
  = match m w with
    | (Return a, w') => f a w'
    | (Raise e, w') => (Raise e, w')
    end.
Proof. reflexivity. Qed.

Lemma try_run {A} (body : Py A) (handler : ErrorResponse → Py A) (w : World) :
  try_except_ClientError body handler w
  = match body w with
    | (Raise (ClientError e), w') => handler e w'
    | r => r
    end.
Proof. reflexivity. Qed.

(** ** What every operation preserves *)

Section Frame.
Variable R : World → World → Prop.
Hypothesis R_refl : ∀ w, R w w.
Hypothesis R_trans : ∀ w1 w2 w3, R w1 w2 → R w2 w3 → R w1 w3.
Hypothesis R_print : ∀ line w, R w (print line w).2.
Hypothesis R_remote :
  ∀ A (req : Request) (serve : Spaces → Reply A) w,
    bare req → R w (remote_call req serve w).2.

Lemma framed_ret {A} (a : A) : framed R (mret a).
Proof. intros w. apply R_refl. Qed.

Lemma framed_raise {A} (e : PyExc) : framed R (raise (A := A) e).
Proof. intros w. apply R_refl. Qed.

Lemma framed_lift {A} (o : Outcome A) : framed R (lift o).
Proof. intros w. apply R_refl. Qed.

Lemma framed_get_self : framed R get_self.
Proof. intros w. apply R_refl. Qed.

Lemma framed_print (line : string) : framed R (print line).
Proof. intros w. apply R_print. Qed.

Lemma framed_remote {A} (req : Request) (serve : Spaces → Reply A) :
  bare req → framed R (remote_call req serve).
Proof. intros Hreq w. by apply R_remote. Qed.

Lemma framed_bind {A B} (m : Py A) (f : A → Py B) :
  framed R m → (∀ a, framed R (f a)) → framed R (m ≫= f).
Proof.
  intros Hm Hf w. rewrite bind_run. specialize (Hm w).
  destruct (m w) as [[a|e] w']; [|done].
  eapply R_trans; [exact Hm|apply Hf].
Qed.

Lemma framed_try {A} (body : Py A) (handler : ErrorResponse → Py A) :
  framed R body → (∀ e, framed R (handler e)) →
  framed R (try_except_ClientError body handler).
Proof.
  intros Hb Hh w. rewrite try_run. specialize (Hb w).
  destruct (body w) as [[a|[]] w']; try done.
  eapply R_trans; [exact Hb|apply Hh].
Qed.

Lemma framed_fetch_pages {A} (request : option string → Request)
  (token : option string) (pages : list Page) (body : Page → A → Py A)
  (acc : A) :
  (∀ t, bare (request t)) → (∀ page a, framed R (body page a)) →
  framed R (fetch_pages request token pages body acc).
Proof.
  intros Hreq Hbody. revert token acc.
  induction pages as [|page pages IH]; intros token acc.
  - apply framed_ret.
  - cbn [fetch_pages]. apply framed_bind; [by apply framed_remote|].
    intros _. apply framed_bind; [apply Hbody|]. intros acc'. apply IH.
Qed.

Lemma framed_for_page_in {A} (request : option string → Request)
  (Bucket Prefix : string) (Delimiter : option string)
  (body : Page → A → Py A) (acc : A) :
  (∀ t, bare (request t)) → (∀ page a, framed R (body page a)) →
  framed R (for_page_in request Bucket Prefix Delimiter body acc).
Proof.
  intros Hreq Hbody w. unfold for_page_in.
  destruct (buckets (remote w) !! Bucket).
  - by apply framed_fetch_pages.
  - apply framed_bind; [by apply framed_remote|]. intros _. apply framed_ret.
Qed.

Lemma framed_upload_parts (fuel : nat) (filePath : string) (fileData : bytes)
  (chunkSize : Z) (upload_id : string) (part_number : Z) (parts : list Part) :
  framed R (upload_parts fuel filePath fileData chunkSize upload_id
              part_number parts).
Proof.
  revert fileData part_number parts.
  induction fuel as [|fuel IH]; intros fileData part_number parts.
  - apply framed_raise.
  - cbn [upload_parts]. destruct (read fileData chunkSize) as [chunk rest].
    destruct (is_empty chunk); [apply framed_ret|].
    apply framed_bind; [apply framed_get_self|]. intros self.
    apply framed_bind; [by apply framed_remote|]. intros part. apply IH.
Qed.

Lemma framed_print_each (lines : list string) : framed R (print_each lines).
Proof.
  induction lines as [|line lines IH]; [apply framed_ret|].
  cbn [print_each]. apply framed_bind; [apply framed_print|]. by intros _.
Qed.

Ltac frame :=
  repeat first
    [ apply framed_ret | apply framed_raise | apply framed_lift
    | apply framed_get_self | apply framed_print | apply framed_print_each
    | apply framed_upload_parts
    | apply framed_remote; done
    | apply framed_bind; [|intros ?]
    | apply framed_try; [|intros ?]
    | apply framed_for_page_in; [done|intros ? ?]
    | match goal with
      | |- framed _ (match ?x with _ => _ end) => destruct x
      | |- framed _ (let _ := _ in _) => cbv zeta
      end ].

Theorem framed_run (op : Operation) : framed R (run op).
Proof.
  destruct op; unfold run, returning;
    unfold connectToBucket, listBuckets, createBucket, createFolder,
      folderExists, fileExists, uploadFile, updateFile, deleteFile,
      deleteFolder, listFolders, listFolderContents, streamFileContent,
      readFile, multipartUpload, uploadFileChunked, getActualFileNames,
      paginate_list_objects, paginate_list_objects_v2,
      client_head_bucket, client_list_buckets, client_create_bucket,
      client_put_object, client_head_object, client_delete_object,
      client_delete_objects, client_get_object,
      client_create_multipart_upload, client_complete_multipart_upload;
    frame.
Qed.
End Frame.

(** ** Reading in chunks *)

Lemma is_empty_nil (chunk : bytes) : is_empty chunk = true ↔ chunk = [].
Proof. by destruct chunk. Qed.

Lemma read_app (unread : bytes) (size : Z) :
  (read unread size).1 ++ (read unread size).2 = unread.
Proof.
  unfold read. destruct (size <? 0); cbn [fst snd].
  - apply app_nil_r.
  - apply take_drop.
Qed.

Lemma read_progress (unread : bytes) (size : Z) :
  is_empty (read unread size).1 = false →
  (length (read unread size).2 < length unread)%nat.
Proof.
  unfold read. destruct (size <? 0); cbn [fst snd].
  - destruct unread; [done|]. cbn. lia.
  - destruct unread as [|b unread]; [by rewrite take_nil|].
    destruct (Z.to_nat size) as [|n]; [done|].
    intros _. cbn [drop length]. rewrite length_drop. lia.
Qed.

Lemma read_at_end (size : Z) : read [] size = ([], []).
Proof. unfold read. destruct (size <? 0); [done|]. by rewrite take_nil, drop_nil. Qed.

Lemma chunked_fuel (fuel fuel' : nat) (unread : bytes) (chunkSize : Z) :
  (length unread < fuel)%nat → (length unread < fuel')%nat →
  chunked fuel unread chunkSize = chunked fuel' unread chunkSize.
Proof.
  revert fuel' unread. induction fuel as [|fuel IH]; intros fuel' unread H H';
    [lia|].
  destruct fuel' as [|fuel']; [lia|]. cbn [chunked].
  pose proof (read_progress unread chunkSize) as Hlt.
  destruct (read unread chunkSize) as [chunk rest]. cbn [fst snd] in Hlt.
  destruct (is_empty chunk); [done|].
  f_equal. apply IH; specialize (Hlt eq_refl); lia.
Qed.

Lemma chunks_of_unfold (unread : bytes) (chunkSize : Z) :
  chunks_of unread chunkSize
  = if is_empty (read unread chunkSize).1 then []
    else (read unread chunkSize).1
           :: chunks_of (read unread chunkSize).2 chunkSize.
Proof.
  unfold chunks_of at 1. cbn [chunked].
  pose proof (read_progress unread chunkSize) as Hlt.
  destruct (read unread chunkSize) as [chunk rest]. cbn [fst snd] in *.
  destruct (is_empty chunk); [done|].
  f_equal. unfold chunks_of.
  apply chunked_fuel; specialize (Hlt eq_refl); lia.
Qed.

Lemma chunked_concat (fuel : nat) (unread : bytes) (chunkSize : Z) :
  1 ≤ chunkSize → (length unread < fuel)%nat →
  concat (chunked fuel unread chunkSize) = unread.
Proof.
  intros Hc. revert unread. induction fuel as [|fuel IH]; intros unread H; [lia|].
  cbn [chunked].
  pose proof (read_progress unread chunkSize) as Hlt.
  pose proof (read_app unread chunkSize) as Happ.
  destruct (read unread chunkSize) as [chunk rest] eqn:Hread.
  cbn [fst snd] in *.
  destruct (is_empty chunk) eqn:He.
  - apply is_empty_nil in He as ->. cbn [concat].
    unfold read in Hread. replace (chunkSize <? 0) with false in Hread by lia.
    injection Hread as Htake _. destruct unread as [|b unread]; [done|].
    destruct (Z.to_nat chunkSize) eqn:Hn; [lia|done].
  - cbn [concat]. rewrite IH; [done|]. specialize (Hlt eq_refl). lia.
Qed.

Lemma chunks_of_concat (unread : bytes) (chunkSize : Z) :
  1 ≤ chunkSize → concat (chunks_of unread chunkSize) = unread.
Proof. intros Hc. apply chunked_concat; [done|lia]. Qed.

Lemma read_chunks_chunked (fuel : nat) (stream : bytes) (chunkSize : Z)
  (yielded : list bytes) :
  (length stream < fuel)%nat →
  read_chunks fuel stream chunkSize yielded
  = Return (yielded ++ chunked fuel stream chunkSize).
Proof.
  revert stream yielded. induction fuel as [|fuel IH]; intros stream yielded H;
    [lia|].
  cbn [read_chunks chunked].
  pose proof (read_progress stream chunkSize) as Hlt.
  destruct (read stream chunkSize) as [chunk rest]. cbn [fst snd] in Hlt.
  destruct (is_empty chunk); [by rewrite app_nil_r|].
  rewrite IH by (specialize (Hlt eq_refl); lia).
  by rewrite <- app_assoc.
Qed.

(** The fuel the streaming methods give their loop is never used up. *)
Lemma read_chunks_total (stream : bytes) (chunkSize : Z) :
  read_chunks (S (length stream)) stream chunkSize []
  = Return (chunks_of stream chunkSize).
Proof. rewrite read_chunks_chunked by lia. done. Qed.

(** ** Which operations raise *)

Lemma remote_call_raises {A} (req : Request) (serve : Spaces → Reply A) :
  client_errors_only (remote_call req serve).
Proof.
  intros w. unfold remote_call.
  destruct (faults (remote w)) as [|[e|] script]; cbn [fst]; try done;
    by destruct (serve _) as [e|[a s']].
Qed.

Lemma returns_only {A} (m : Py A) : returns m → client_errors_only m.
Proof. intros H w. by destruct (H w) as [a ->]. Qed.

Lemma only_bind {A B} (m : Py A) (f : A → Py B) :
  client_errors_only m → (∀ a, client_errors_only (f a)) →
  client_errors_only (m ≫= f).
Proof.
  intros Hm Hf w. rewrite bind_run. specialize (Hm w).
  destruct (m w) as [[a|e] w']; [apply Hf|done].
Qed.

Lemma returns_ret {A} (a : A) : returns (mret a).
Proof. intros w. by exists a. Qed.

Lemma returns_get_self : returns get_self.
Proof. intros w. by eexists. Qed.

Lemma returns_print (line : string) : returns (print line).
Proof. intros w. by exists tt. Qed.

Lemma returns_bind {A B} (m : Py A) (f : A → Py B) :
  returns m → (∀ a, returns (f a)) → returns (m ≫= f).
Proof.
  intros Hm Hf w. rewrite bind_run. destruct (Hm w) as [a Ha].
  destruct (m w) as [o w']. cbn [fst] in Ha. subst o. apply Hf.
Qed.

Lemma returns_try {A} (body : Py A) (handler : ErrorResponse → Py A) :
  client_errors_only body → (∀ e, returns (handler e)) →
  returns (try_except_ClientError body handler).
Proof.
  intros Hb Hh w. rewrite try_run. specialize (Hb w).
  destruct (body w) as [[a|[]] w']; try done; [by exists a|apply Hh].
Qed.

Lemma returns_print_each (lines : list string) : returns (print_each lines).
Proof.
  induction lines as [|line lines IH]; [apply returns_ret|].
  cbn [print_each]. apply returns_bind; [apply returns_print|]. by intros _.
Qed.

Lemma returns_read_chunks (stream : bytes) (chunkSize : Z) :
  returns (lift (read_chunks (S (length stream)) stream chunkSize [])).
Proof. intros w. rewrite read_chunks_total. by eexists. Qed.

Lemma returns_getActualFileNames (filePaths : list string) :
  returns (getActualFileNames filePaths).
Proof.
  intros w. unfold getActualFileNames, lift.
  rewrite getActualFileNames_loop_map. by eexists.
Qed.

Lemma only_fetch_pages {A} (request : option string → Request)
  (token : option string) (pages : list Page) (body : Page → A → Py A)
  (acc : A) :
  (∀ page a, client_errors_only (body page a)) →
  client_errors_only (fetch_pages request token pages body acc).
Proof.
  intros Hbody. revert token acc.
  induction pages as [|page pages IH]; intros token acc.
  - apply returns_only, returns_ret.
  - cbn [fetch_pages]. apply only_bind; [apply remote_call_raises|].
    intros _. apply only_bind; [apply Hbody|]. intros acc'. apply IH.
Qed.

Lemma only_for_page_in {A} (request : option string → Request)
  (Bucket Prefix : string) (Delimiter : option string)
  (body : Page → A → Py A) (acc : A) :
  (∀ page a, client_errors_only (body page a)) →
  client_errors_only (for_page_in request Bucket Prefix Delimiter body acc).
Proof.
  intros Hbody w. unfold for_page_in.
  destruct (buckets (remote w) !! Bucket).
  - by apply only_fetch_pages.
  - apply only_bind; [apply remote_call_raises|].
    intros _. apply returns_only, returns_ret.
Qed.

(** The fuel [uploadFileChunked] gives its loop is never used up. *)
Lemma upload_parts_total (fuel : nat) (filePath : string) (fileData : bytes)
  (chunkSize : Z) (upload_id : string) (part_number : Z) (parts : list Part) :
  (length fileData < fuel)%nat →
  client_errors_only
    (upload_parts fuel filePath fileData chunkSize upload_id part_number parts).
Proof.
  revert fileData part_number parts.
  induction fuel as [|fuel IH]; intros fileData part_number parts H; [lia|].
  cbn [upload_parts].
  pose proof (read_progress fileData chunkSize) as Hlt.
  destruct (read fileData chunkSize) as [chunk rest]. cbn [fst snd] in Hlt.
  destruct (is_empty chunk); [apply returns_only, returns_ret|].
  apply only_bind; [apply returns_only, returns_get_self|]. intros self.
  apply only_bind; [apply remote_call_raises|]. intros part.
  apply IH. specialize (Hlt eq_refl). lia.
Qed.

Ltac returning_tac :=
  repeat first
    [ apply returns_ret | apply returns_get_self | apply returns_print
    | apply returns_print_each | apply returns_read_chunks
    | apply returns_getActualFileNames
    | apply remote_call_raises
    | apply upload_parts_total; lia
    | apply returns_bind; [|intros ?]
    | apply returns_try; [|intros ?]
    | apply only_bind; [|intros ?]
    | apply only_for_page_in; intros ? ?
    | apply returns_only;
        first [ apply returns_ret | apply returns_get_self
              | apply returns_print | apply returns_print_each
              | apply returns_read_chunks ]
    | match goal with
      | |- returns (match ?x with _ => _ end) => destruct x
      | |- client_errors_only (match ?x with _ => _ end) => destruct x
      | |- returns (let _ := _ in _) => cbv zeta
      | |- client_errors_only (let _ := _ in _) => cbv zeta
      end ].

Ltac unfold_methods :=
  unfold connectToBucket, listBuckets, createBucket, createFolder,
    folderExists, fileExists, uploadFile, updateFile, deleteFile,
    deleteFolder, streamFileContent,
    readFile, multipartUpload, uploadFileChunked,
    paginate_list_objects, paginate_list_objects_v2,
    client_head_bucket, client_list_buckets, client_create_bucket,
    client_put_object, client_head_object, client_delete_object,
    client_delete_objects, client_get_object,
    client_create_multipart_upload, client_complete_multipart_upload.

Lemma returns_folderExists (folderPath : string) :
  returns (folderExists folderPath).
Proof. unfold_methods. returning_tac. Qed.


(** ** Existence checks *)

Lemma folderExists_check (folderPath : string) (w : World) :
  exists_check (folderExists folderPath) (bucket_name (self w))
    (folderPath +:+ "/")
    "An error occurred while checking folder existence: " w.
Proof.
  unfold exists_check, folderExists. rewrite bind_run. cbn [get_self].
  rewrite try_run, bind_run.
  pose proof (remote_call_raises (head_object (bucket_name (self w))
    (folderPath +:+ "/")) (serve_head_object (bucket_name (self w))
    (folderPath +:+ "/")) w) as Honly.
  unfold client_head_object in *.
  destruct (remote_call _ _ w) as [[[]|[e| | | | |]] w']; cbn [fst] in Honly;
    try done.
  by destruct (decide (Code e = "404")).
Qed.

Lemma fileExists_check (filePath : string) (w : World) :
  exists_check (fileExists filePath) (bucket_name (self w)) filePath
    "An error occurred while checking file existence: " w.
Proof.
  unfold exists_check, fileExists. rewrite bind_run. cbn [get_self].
  rewrite try_run, bind_run.
  pose proof (remote_call_raises (head_object (bucket_name (self w)) filePath)
    (serve_head_object (bucket_name (self w)) filePath) w) as Honly.
  unfold client_head_object in *.
  destruct (remote_call _ _ w) as [[[]|[e| | | | |]] w']; cbn [fst] in Honly;
    try done.
  by destruct (decide (Code e = "404")).
Qed.

Lemma exists_check_outcome (check : Py bool) (Bucket Key complaint : string)
  (w : World) :
  exists_check check Bucket Key complaint w →
  (check w).1 = Return (succeeds (client_head_object Bucket Key) w).
Proof.
  unfold exists_check, succeeds.
  destruct (client_head_object Bucket Key w) as [[[]|[]] w']; try done;
    by intros ->.
Qed.

(** Whether a request is answered depends on the service alone. *)
Lemma succeeds_remote_call {A} (req : Request) (serve : Spaces → Reply A)
  (w1 w2 : World) :
  remote w1 = remote w2 →
  succeeds (remote_call req serve) w1 = succeeds (remote_call req serve) w2.
Proof.
  intros H. unfold succeeds, remote_call. rewrite H.
  destruct (faults (remote w2)) as [|[e|] script]; cbn [fst]; try done;
    by destruct (serve _) as [e|[a s']].
Qed.

Lemma folderExists_outcome (folderPath : string) (w : World) :
  (folderExists folderPath w).1
  = Return (succeeds (client_head_object (bucket_name (self w))
                        (folderPath +:+ "/")) w).
Proof. eapply exists_check_outcome, folderExists_check. Qed.

Lemma folderExists_after_print (folderPath line : string) (w : World) :
  (folderExists folderPath (print line w).2).1 = (folderExists folderPath w).1.
Proof.
  rewrite !folderExists_outcome. f_equal. by apply succeeds_remote_call.
Qed.

(** ** Listing the contents of a folder *)

Lemma listFolderContents_run (folderPath : string) (w : World) :
  listFolderContents folderPath w
  = let w1 :=
      (print ("Listing folder contents of " +:+ " " +:+ folderPath) w).2 in
    match folderExists folderPath w1 with
    | (Return false, w2) =>
        (Raise (Exception ("Folder " +:+ folderPath +:+ " does not exist")), w2)
    | (Return true, w2) =>
        try_except_ClientError
          (paginate_list_objects_v2 (bucket_name (self w2))
             (folderPath +:+ "/") "/" (listFolderContents_page folderPath) [])
          (λ e, _ ← print ("An error occurred while listing folder contents: "
                             +:+ str_ClientError e);
                mret []) w2
    | (Raise e, w2) => (Raise e, w2)
    end.
Proof.
  unfold listFolderContents. rewrite bind_run. cbn [print]. rewrite bind_run.
  cbn [snd]. by destruct (folderExists _ _) as [[[]|] w2].
Qed.

Lemma listFolderContents_missing (folderPath : string) (w : World) :
  (folderExists folderPath w).1 = Return false →
  (listFolderContents folderPath w).1
  = Raise (Exception ("Folder " +:+ folderPath +:+ " does not exist")).
Proof.
  intros H. rewrite listFolderContents_run. cbv zeta.
  rewrite <- (folderExists_after_print folderPath
    ("Listing folder contents of " +:+ " " +:+ folderPath)) in H.
  destruct (folderExists _ _) as [o w2]. cbn [fst] in H. by subst o.
Qed.

Lemma listFolderContents_present (folderPath : string) (w : World) :
  (folderExists folderPath w).1 = Return true →
  ∃ names, (listFolderContents folderPath w).1 = Return names.
Proof.
  intros H. rewrite listFolderContents_run. cbv zeta.
  rewrite <- (folderExists_after_print folderPath
    ("Listing folder contents of " +:+ " " +:+ folderPath)) in H.
  destruct (folderExists _ _) as [o w2]. cbn [fst] in H. subst o.
  apply returns_try.
  - apply only_for_page_in. intros page contents.
    apply returns_only, returns_ret.
  - intros e. apply returns_bind; [apply returns_print|].
    intros _. apply returns_ret.
Qed.

Lemma pages_of_cons (objects : gmap string bytes) (prefix : string)
  (Delimiter : option string) :
  ∃ page pages, pages_of objects prefix Delimiter = page :: pages.
Proof.
  unfold pages_of. generalize (listing objects prefix Delimiter).
  generalize MaxKeys. generalize (@nil Entry).
  intros cur room es. revert cur room.
  induction es as [|e es IH]; intros cur room; cbn [cut_pages].
  - by eexists _, _.
  - destruct room; [by eexists _, _|apply IH].
Qed.


(** ** Multipart uploads *)

Lemma store_parts_below (tag : bytes → string) (n : Z) (chunks : list bytes)
  (stored : gmap Z (string * bytes)) (i : Z) :
  i < n → store_parts tag n chunks stored !! i = stored !! i.
Proof.
  revert n stored. induction chunks as [|chunk chunks IH]; intros n stored Hi;
    [done|].
  cbn [store_parts]. rewrite IH by lia. apply lookup_insert_ne. lia.
Qed.

(** The service accepts the parts of a session in the order they were
    numbered and joins their bodies. *)
Lemma assemble_stored (tag : bytes → string) (n prev : Z)
  (chunks : list bytes) (stored : gmap Z (string * bytes)) :
  prev < n →
  assemble (store_parts tag n chunks stored) prev (part_list tag n chunks)
  = inr (concat chunks).
Proof.
  revert n prev stored.
  induction chunks as [|chunk chunks IH]; intros n prev stored Hn; [done|].
  cbn [store_parts part_list assemble PartNumber ETag concat].
  rewrite decide_False by lia.
  rewrite store_parts_below, lookup_insert_eq by lia.
  rewrite decide_True by done.
  by rewrite IH by lia.
Qed.

Lemma part_list_numbers (tag : bytes → string) (n : Z) (chunks : list bytes) :
  PartNumber <$> part_list tag n chunks = seqZ n (Z.of_nat (length chunks)).
Proof.
  revert n. induction chunks as [|chunk chunks IH]; intros n; [done|].
  cbn [part_list fmap list_fmap PartNumber length].
  rewrite seqZ_cons by lia. f_equal.
  change (list_fmap _ _ PartNumber ?l) with (PartNumber <$> l).
  rewrite IH. f_equal; lia.
Qed.

Lemma part_requests_numbers (Bucket Key UploadId : string) (n : Z)
  (chunks : list bytes) :
  part_numbers (part_requests Bucket Key UploadId n chunks)
  = seqZ n (Z.of_nat (length chunks)).
Proof.
  revert n. induction chunks as [|chunk chunks IH]; intros n; [done|].
  cbn [part_requests length]. unfold part_numbers in *. cbn [omap list_omap].
  rewrite seqZ_cons by lia. f_equal.
  change (list_omap _ _ ?f ?l) with (omap f l).
  rewrite IH. f_equal; lia.
Qed.

Lemma part_requests_bodies (Bucket Key UploadId : string) (n : Z)
  (chunks : list bytes) :
  part_bodies (part_requests Bucket Key UploadId n chunks) = chunks.
Proof.
  revert n. induction chunks as [|chunk chunks IH]; intros n; [done|].
  cbn [part_requests]. unfold part_bodies in *. cbn [omap list_omap].
  f_equal. apply IH.
Qed.

Lemma set_uploads_same (s : Spaces) :
  set_uploads (uploads s) (upload_counter s) s = s.
Proof. by destruct s. Qed.

(** The loop of [uploadFileChunked] when the service answers every
    request: one part per chunk, numbered from [part_number] on. *)
Lemma upload_parts_served (fuel : nat) (filePath : string) (fileData : bytes)
  (chunkSize : Z) (upload_id : string) (part_number : Z) (parts : list Part)
  (inst : DOSpacesWrapper) (s : Spaces) (reqs : list Request)
  (out : list string) (stored : gmap Z (string * bytes)) :
  (length fileData < fuel)%nat →
  faults s = [] →
  uploads s !! upload_id
    = Some (mkUploadSession (bucket_name inst) filePath stored) →
  let chunks := chunked fuel fileData chunkSize in
  upload_parts fuel filePath fileData chunkSize upload_id part_number parts
    (mkWorld inst s reqs out)
  = (Return (parts ++ part_list (etag_of s) part_number chunks),
     mkWorld inst
       (set_uploads
          (<[upload_id :=
               mkUploadSession (bucket_name inst) filePath
                 (store_parts (etag_of s) part_number chunks stored)]>
             (uploads s))
          (upload_counter s) s)
       (reqs ++ part_requests (bucket_name inst) filePath upload_id
                  part_number chunks)
       out).
Proof.
  revert fileData part_number parts s reqs stored.
  induction fuel as [|fuel IH];
    intros fileData part_number parts s reqs stored Hfuel Hfaults Hup; [lia|].
  cbn [upload_parts chunked].
  pose proof (read_progress fileData chunkSize) as Hlt.
  destruct (read fileData chunkSize) as [chunk rest]. cbn [fst snd] in Hlt.
  destruct (is_empty chunk).
  - cbn [part_list store_parts part_requests].
    rewrite !app_nil_r, insert_id by done. by rewrite set_uploads_same.
  - specialize (Hlt eq_refl).
    rewrite bind_run. cbn [get_self self]. rewrite bind_run.
    unfold client_upload_part, remote_call.
    cbn [remote self requests stdout]. rewrite Hfaults.
    unfold serve_upload_part, find_upload. rewrite Hup.
    cbn [mu_Bucket mu_Key mu_parts]. rewrite decide_True by done.
    rewrite (IH rest (part_number + 1) _ _ _
               (<[part_number := (etag_of s chunk, chunk)]> stored));
      [|lia|done|by cbn; rewrite lookup_insert_eq].
    cbn [set_uploads uploads upload_counter etag_of buckets faults
         part_list store_parts part_requests].
    rewrite insert_insert_eq, <- !app_assoc. done.
Qed.

Lemma create_multipart_upload_served (Bucket Key : string)
  (inst : DOSpacesWrapper) (s : Spaces) (reqs : list Request)
  (out : list string) (objects : gmap string bytes) :
  faults s = [] → buckets s !! Bucket = Some objects →
  let UploadId := "upload-" +:+ pretty (upload_counter s) in
  client_create_multipart_upload Bucket Key (mkWorld inst s reqs out)
  = (Return UploadId,
     mkWorld inst
       (set_uploads (<[UploadId := mkUploadSession Bucket Key ∅]> (uploads s))
          (S (upload_counter s)) s)
       (reqs ++ [create_multipart_upload Bucket Key]) out).
Proof.
  intros Hfaults Hbucket. unfold client_create_multipart_upload, remote_call.
  cbn [remote self requests stdout]. rewrite Hfaults.
  unfold serve_create_multipart_upload, in_bucket. by rewrite Hbucket.
Qed.

Lemma complete_multipart_upload_served (Bucket Key UploadId : string)
  (Parts : list Part) (inst : DOSpacesWrapper) (s : Spaces)
  (reqs : list Request) (out : list string) (objects : gmap string bytes)
  (stored : gmap Z (string * bytes)) (content : bytes) :
  faults s = [] → buckets s !! Bucket = Some objects →
  uploads s !! UploadId = Some (mkUploadSession Bucket Key stored) →
  assemble stored 0 Parts = inr content →
  client_complete_multipart_upload Bucket Key Parts UploadId
    (mkWorld inst s reqs out)
  = (Return tt,
     mkWorld inst
       (set_uploads (delete UploadId (uploads s)) (upload_counter s)
          (set_buckets (<[Bucket := <[Key := content]> objects]> (buckets s)) s))
       (reqs ++ [complete_multipart_upload Bucket Key Parts UploadId]) out).
Proof.
  intros Hfaults Hbucket Hup Hparts.
  unfold client_complete_multipart_upload, remote_call.
  cbn [remote self requests stdout]. rewrite Hfaults.
  unfold serve_complete_multipart_upload, find_upload, in_bucket.
  rewrite Hup. cbn [mu_Bucket mu_Key mu_parts].
  rewrite decide_True by done. by rewrite Hbucket, Hparts.
Qed.

(** [uploadFileChunked] on a readable source when the service answers
    every request. *)
Lemma uploadFileChunked_served (filePath : string) (d : bytes)
  (chunkSize : Z) (inst : DOSpacesWrapper) (s : Spaces)
  (reqs : list Request) (out : list string) (objects : gmap string bytes) :
  faults s = [] →
  buckets s !! bucket_name inst = Some objects →
  let Bucket := bucket_name inst in
  let UploadId := "upload-" +:+ pretty (upload_counter s) in
  let chunks := chunks_of d chunkSize in
  ∃ s',
    uploadFileChunked filePath (FileLike d) chunkSize (mkWorld inst s reqs out)
    = (Return tt,
       mkWorld inst s'
         (reqs
            ++ [create_multipart_upload Bucket filePath]
            ++ part_requests Bucket filePath UploadId 1 chunks
            ++ [complete_multipart_upload Bucket filePath
                  (part_list (etag_of s) 1 chunks) UploadId])
         (out ++ ["Successfully uploaded file: " +:+ filePath]))
    ∧ faults s' = []
    ∧ buckets s'
      = <[Bucket := <[filePath := concat chunks]> objects]> (buckets s).
Proof.
  intros Hfaults Hbucket. cbv zeta.
  eexists. split.
  - unfold uploadFileChunked. rewrite bind_run. cbn [get_self self].
    rewrite try_run, bind_run. cbv beta iota. rewrite bind_run.
    rewrite (create_multipart_upload_served _ _ _ _ _ _ objects) by done.
    rewrite bind_run.
    rewrite (upload_parts_served _ _ _ _ _ _ _ _ _ _ _ ∅);
      [|lia|done|by cbn; rewrite lookup_insert_eq].
    cbn [etag_of set_uploads uploads upload_counter buckets faults].
    erewrite complete_multipart_upload_served;
      [|done|exact Hbucket|by cbn; rewrite lookup_insert_eq
       |by apply assemble_stored].
    cbn [print self remote requests stdout app].
    rewrite <- !app_assoc. cbn [app]. reflexivity.
  - done.
Qed.

Lemma readFile_served (filePath : string) (chunkSize : Z) (w : World)
  (content : bytes) :
  faults (remote w) = [] →
  object_at w filePath = Some content →
  (readFile filePath chunkSize w).1 = Return (chunks_of content chunkSize).
Proof.
  intros Hfaults Hobj. unfold object_at in Hobj.
  destruct (buckets (remote w) !! bucket_name (self w)) as [objects|] eqn:Hb;
    [|done].
  cbn in Hobj.
  unfold readFile. rewrite bind_run. cbn [get_self]. rewrite try_run, bind_run.
  unfold client_get_object, remote_call. rewrite Hfaults.
  unfold serve_get_object, in_bucket. rewrite Hb, Hobj.
  unfold lift. by rewrite read_chunks_total.
Qed.



(** C3. For a payload that is a [bytes] value, [uploadFileChunked]
    sends exactly one request, a [put_object] whose body is the whole
    payload; it sends no multipart request, whether the service answers
    or refuses. *)
Theorem uploadFileChunked_bytes_single_put (filePath : string) (b : bytes)
  (chunkSize : Z) (w : World) :
  let r := uploadFileChunked filePath (Bytes b) chunkSize w in
  requests r.2
  = requests w
      ++ [put_object
            {| po_Bucket := bucket_name (self w);
               po_Key := filePath;
               po_Body := Bytes b;
               po_ACL := None;
               po_CacheControl := None;
               po_ServerSideEncryption := None |}]
  ∧ (∃ new, requests r.2 = requests w ++ new
            ∧ filter is_multipart new = []
            ∧ body_bytes <$> omap (λ q, match q with
                                        | put_object args => Some (po_Body args)
                                        | _ => None
                                        end) new = [b]).
Proof.
  cbv zeta.
  assert (H : requests (uploadFileChunked filePath (Bytes b) chunkSize w).2
    = requests w
      ++ [put_object (mkPutObject (bucket_name (self w)) filePath (Bytes b)
                        None None None)]).
  { unfold uploadFileChunked. rewrite bind_run. cbn [get_self].
    rewrite try_run, bind_run.
    unfold client_put_object, remote_call.
    destruct (faults (remote w)) as [|[e|] script]; try done;
      by destruct (serve_put_object _ _) as [e|[[] s']]. }
  split; [exact H|]. eexists. split; [exact H|]. done.
Qed.

(** *** Part numbers, whatever the service answers *)

Lemma remote_call_recorded {A} (req : Request) (serve : Spaces → Reply A)
  (w : World) :
  requests (remote_call req serve w).2 = requests w ++ [req]
  ∧ self (remote_call req serve w).2 = self w.
Proof.
  unfold remote_call.
  destruct (faults (remote w)) as [|[e|] script]; try done;
    by destruct (serve _) as [e|[a s']].
Qed.

Lemma upload_parts_numbered (fuel : nat) (filePath : string) (fileData : bytes)
  (chunkSize : Z) (upload_id : string) (part_number : Z) (parts : list Part)
  (w : World) :
  let r := upload_parts fuel filePath fileData chunkSize upload_id
             part_number parts w in
  ∃ submitted,
    requests r.2
    = requests w ++ part_requests (bucket_name (self w)) filePath upload_id
                      part_number submitted
    ∧ self r.2 = self w
    ∧ ∀ ps, r.1 = Return ps →
        PartNumber <$> ps
        = (PartNumber <$> parts)
            ++ seqZ part_number (Z.of_nat (length submitted)).
Proof.
  cbv zeta. revert fileData part_number parts w.
  induction fuel as [|fuel IH]; intros fileData part_number parts w.
  - exists []. cbn [upload_parts part_requests].
    split; [by rewrite app_nil_r|]. split; [done|]. intros ps [=].
  - cbn [upload_parts]. destruct (read fileData chunkSize) as [chunk rest].
    destruct (is_empty chunk).
    + exists []. cbn [part_requests length fst snd mret Py_ret].
      rewrite !app_nil_r. split_and!; try done.
      by intros ps [= <-].
    + rewrite bind_run. cbn [get_self]. rewrite bind_run.
      unfold client_upload_part.
      destruct (remote_call_recorded
                  (upload_part chunk (bucket_name (self w)) filePath
                     part_number upload_id)
                  (serve_upload_part chunk (bucket_name (self w)) filePath
                     part_number upload_id) w) as [Hreqs Hself].
      destruct (remote_call _ _ w) as [[tag|e] w1]; cbn [fst snd] in *.
      * destruct (IH rest (part_number + 1)
                    (parts ++ [{| PartNumber := part_number; ETag := tag |}])
                    w1) as (submitted & Hr & Hs & Hps).
        exists (chunk :: submitted). rewrite Hr, Hs, Hreqs, Hself.
        cbn [part_requests length]. rewrite <- app_assoc.
        split_and!; try done.
        intros ps Hret. rewrite (Hps ps Hret), fmap_app, <- app_assoc.
        f_equal. cbn [fmap list_fmap PartNumber app].
        rewrite (seqZ_cons part_number) by lia. do 2 f_equal; lia.
      * exists [chunk]. by rewrite Hreqs.
Qed.

Lemma part_requests_upload_part (Bucket Key UploadId : string) (n : Z)
  (chunks : list bytes) (r : Request) :
  r ∈ part_requests Bucket Key UploadId n chunks →
  ∃ Body PartNumber, r = upload_part Body Bucket Key PartNumber UploadId.
Proof.
  revert n. induction chunks as [|chunk chunks IH]; intros n;
    cbn [part_requests].
  - by intros ?%elem_of_nil.
  - intros [->|H]%elem_of_cons; [by eexists _, _|by eapply IH].
Qed.

Lemma uploadFileChunked_numbered (filePath : string) (d : bytes)
  (chunkSize : Z) (w : World) :
  let r := uploadFileChunked filePath (FileLike d) chunkSize w in
  ∃ new m,
    requests r.2 = requests w ++ new
    ∧ part_numbers new = seqZ 1 m
    ∧ ∀ Bucket Key Parts UploadId,
        complete_multipart_upload Bucket Key Parts UploadId ∈ new →
        PartNumber <$> Parts = seqZ 1 m.
Proof.
  cbv zeta.
  unfold uploadFileChunked. rewrite bind_run. cbn [get_self].
  rewrite try_run, bind_run. cbv beta iota. rewrite bind_run.
  unfold client_create_multipart_upload.
  destruct (remote_call_recorded
              (create_multipart_upload (bucket_name (self w)) filePath)
              (serve_create_multipart_upload (bucket_name (self w)) filePath)
              w) as [Hreqs Hself].
  destruct (remote_call _ _ w) as [[upload_id|e] w1]; cbn [fst snd] in *.
  - rewrite bind_run.
    destruct (upload_parts_numbered (S (length d)) filePath d chunkSize
                upload_id 1 [] w1) as (submitted & Hr & Hs & Hps).
    cbv zeta in *.
    destruct (upload_parts _ _ _ _ _ _ _ w1) as [[ps|e] w2];
      cbn [fst snd] in *.
    + unfold client_complete_multipart_upload.
      destruct (remote_call_recorded
                  (complete_multipart_upload (bucket_name (self w)) filePath
                     ps upload_id)
                  (serve_complete_multipart_upload (bucket_name (self w))
                     filePath ps upload_id) w2) as [Hreqs2 _].
      exists ([create_multipart_upload (bucket_name (self w)) filePath]
                ++ part_requests (bucket_name (self w1)) filePath upload_id 1
                     submitted
                ++ [complete_multipart_upload (bucket_name (self w)) filePath
                      ps upload_id]),
        (Z.of_nat (length submitted)).
      split_and!.
      * destruct (remote_call _ _ w2) as [[[]|[]] w3];
          cbn [print fst snd requests] in *;
          rewrite Hreqs2, Hr, Hreqs, <- ?app_assoc; done.
      * unfold part_numbers. cbn [app omap list_omap].
        change (list_omap _ _ ?f ?l) with (omap f l).
        rewrite omap_app. cbn [omap list_omap]. rewrite app_nil_r.
        apply part_requests_numbers.
      * intros Bucket Key Parts UploadId.
        rewrite elem_of_app, elem_of_app, !list_elem_of_singleton.
        intros [?|[[Body [n ?]]%part_requests_upload_part|[= _ _ -> _]]];
          [done|done|].
        by rewrite (Hps ps eq_refl).
    + exists ([create_multipart_upload (bucket_name (self w)) filePath]
                ++ part_requests (bucket_name (self w1)) filePath upload_id 1
                     submitted),
        (Z.of_nat (length submitted)).
      split_and!.
      * destruct e; cbn [print fst snd requests];
          rewrite Hr, Hreqs, <- ?app_assoc; done.
      * unfold part_numbers. cbn [app omap list_omap].
        apply part_requests_numbers.
      * intros Bucket Key Parts UploadId.
        rewrite elem_of_app, list_elem_of_singleton.
        by intros [?|[Body [n ?]]%part_requests_upload_part].
  - exists [create_multipart_upload (bucket_name (self w)) filePath], 0.
    split_and!.
    + destruct e; cbn [print fst snd requests]; rewrite Hreqs; done.
    + done.
    + intros Bucket Key Parts UploadId. by rewrite list_elem_of_singleton.
Qed.

(** *** Twenty units of data in chunks of eight *)

Lemma is_empty_length (chunk : bytes) :
  (0 < length chunk)%nat → is_empty chunk = false.
Proof. destruct chunk; cbn; [lia|done]. Qed.

Lemma chunks_of_step (unread : bytes) (chunkSize : Z) :
  0 < chunkSize → (0 < length unread)%nat →
  chunks_of unread chunkSize
  = take (Z.to_nat chunkSize) unread
      :: chunks_of (drop (Z.to_nat chunkSize) unread) chunkSize.
Proof.
  intros Hc Hd. rewrite chunks_of_unfold. unfold read.
  replace (chunkSize <? 0) with false by lia. cbn [fst snd].
  rewrite is_empty_length; [done|]. rewrite length_take. lia.
Qed.

Lemma chunks_of_twenty_by_eight (d : bytes) (unit : Z) :
  0 < unit → Z.of_nat (length d) = 20 * unit →
  (λ chunk, Z.of_nat (length chunk)) <$> chunks_of d (8 * unit)
  = [8 * unit; 8 * unit; 4 * unit].
Proof.
  intros Hu Hd.
  set (n := Z.to_nat (8 * unit)).
  assert (Hn : Z.of_nat n = 8 * unit) by (unfold n; lia).
  rewrite chunks_of_step by lia. fold n.
  rewrite chunks_of_step by (rewrite ?length_drop; lia). fold n.
  rewrite chunks_of_step by (rewrite ?length_drop; lia). fold n.
  rewrite (nil_length_inv (drop n (drop n (drop n d))))
    by (rewrite !length_drop; lia).
  rewrite chunks_of_unfold, read_at_end. cbn [fst snd is_empty].
  cbn [fmap list_fmap]. rewrite !length_take, !length_drop.
  repeat f_equal; lia.
Qed.

Lemma part_bodies_app (reqs1 reqs2 : list Request) :
  part_bodies (reqs1 ++ reqs2) = part_bodies reqs1 ++ part_bodies reqs2.
Proof. apply omap_app. Qed.

Lemma part_numbers_app (reqs1 reqs2 : list Request) :
  part_numbers (reqs1 ++ reqs2) = part_numbers reqs1 ++ part_numbers reqs2.
Proof. apply omap_app. Qed.

Lemma part_bodies_cons_other (r : Request) (reqs1 reqs2 : list Request) :
  part_bodies [r] = [] →
  part_bodies ([r] ++ reqs1 ++ reqs2) = part_bodies (reqs1 ++ reqs2).
Proof. intros H. by rewrite part_bodies_app, H. Qed.

Lemma part_numbers_cons_other (r : Request) (reqs1 reqs2 : list Request) :
  part_numbers [r] = [] →
  part_numbers ([r] ++ reqs1 ++ reqs2) = part_numbers (reqs1 ++ reqs2).
Proof. intros H. by rewrite part_numbers_app, H. Qed.

(** C2. Part numbers of the chunked path on a readable source.
    Whatever the service answers, the parts submitted carry the
    numbers 1, 2, ..., m in this order, and a completion request, when
    one is sent, lists exactly these numbers in ascending order.  When
    every request is answered, the trace is the session creation, one
    part per chunk numbered from 1, and the completion listing each
    number with the tag the service returned for it.  For twenty MiB
    read in chunks of eight MiB, three parts of 8, 8 and 4 MiB are
    submitted and the completion lists the parts 1, 2, 3. *)
Theorem uploadFileChunked_part_numbers (filePath : string) (d : bytes)
  (c : Z) (w : World) :
  let r := uploadFileChunked filePath (FileLike d) c w in
  let Bucket := bucket_name (self w) in
  let UploadId := "upload-" +:+ pretty (upload_counter (remote w)) in
  let tag := etag_of (remote w) in
  (∃ new m,
     requests r.2 = requests w ++ new
     ∧ part_numbers new = seqZ 1 m
     ∧ ∀ Bucket Key Parts UploadId,
         complete_multipart_upload Bucket Key Parts UploadId ∈ new →
         PartNumber <$> Parts = seqZ 1 m)
  ∧ (serving w →
     let chunks := chunks_of d c in
     requests r.2
     = requests w
         ++ [create_multipart_upload Bucket filePath]
         ++ part_requests Bucket filePath UploadId 1 chunks
         ++ [complete_multipart_upload Bucket filePath
               (part_list tag 1 chunks) UploadId]
     ∧ part_numbers (part_requests Bucket filePath UploadId 1 chunks)
       = seqZ 1 (Z.of_nat (length chunks))
     ∧ PartNumber <$> part_list tag 1 chunks
       = seqZ 1 (Z.of_nat (length chunks))
     ∧ ETag <$> part_list tag 1 chunks = tag <$> chunks)
  ∧ (serving w → Z.of_nat (length d) = 20 * MiB → c = 8 * MiB →
     ∃ new Parts,
       requests r.2 = requests w ++ new
       ∧ (λ chunk, Z.of_nat (length chunk)) <$> part_bodies new
         = [8 * MiB; 8 * MiB; 4 * MiB]
       ∧ part_numbers new = [1; 2; 3]
       ∧ last new
         = Some (complete_multipart_upload Bucket filePath Parts UploadId)
       ∧ PartNumber <$> Parts = [1; 2; 3]).
Proof.
  cbv zeta. split_and!.
  - apply uploadFileChunked_numbered.
  - intros [Hfaults [objects Hbucket]]. destruct w as [inst s reqs out].
    cbn [self remote requests] in *.
    destruct (uploadFileChunked_served filePath d c inst s reqs out objects
                Hfaults Hbucket) as (s' & -> & _).
    cbn [snd requests]. split_and!.
    + done.
    + apply part_requests_numbers.
    + apply part_list_numbers.
    + generalize 1. induction (chunks_of d c) as [|chunk chunks IH]; intros n;
        [done|].
      cbn [part_list fmap list_fmap ETag]. f_equal. apply IH.
  - intros [Hfaults [objects Hbucket]] Hd Hc. destruct w as [inst s reqs out].
    cbn [self remote requests] in *.
    destruct (uploadFileChunked_served filePath d c inst s reqs out
                objects Hfaults Hbucket) as (s' & -> & _).
    cbn [snd requests].
    pose proof (chunks_of_twenty_by_eight d MiB eq_refl Hd) as Hsizes.
    rewrite <- Hc in Hsizes at 1.
    assert (Hlen : length (chunks_of d c) = 3%nat).
    { apply (f_equal length) in Hsizes. by rewrite length_fmap in Hsizes. }
    eexists _, _. split; [reflexivity|]. split_and!.
    + by rewrite part_bodies_cons_other, part_bodies_app,
        part_requests_bodies, app_nil_r.
    + by rewrite part_numbers_cons_other, part_numbers_app,
        part_requests_numbers, app_nil_r, Hlen.
    + by rewrite app_assoc, last_snoc.
    + by rewrite part_list_numbers, Hlen.
Qed.

(** C2 at the key [reports/2024/jan.csv] of the bucket [demo], with
    twenty MiB of data and chunks of eight MiB. *)
Lemma uploadFileChunked_part_numbers_witness :
  ∃ new Parts,
    requests
      (uploadFileChunked "reports/2024/jan.csv" (FileLike twenty_MiB)
         (8 * MiB) (demo_world ∅ [])).2
    = new
    ∧ (λ chunk, Z.of_nat (length chunk)) <$> part_bodies new
      = [8 * MiB; 8 * MiB; 4 * MiB]
    ∧ part_numbers new = [1; 2; 3]
    ∧ last new
      = Some (complete_multipart_upload "demo" "reports/2024/jan.csv" Parts
                "upload-0")
    ∧ PartNumber <$> Parts = [1; 2; 3].
Proof.
  destruct (uploadFileChunked_part_numbers "reports/2024/jan.csv" twenty_MiB
              (8 * MiB) (demo_world ∅ [])) as (_ & _ & H).
  destruct H as (new & Parts & H).
  - split; [reflexivity|]. exists ∅. apply lookup_singleton_eq.
  - unfold twenty_MiB. rewrite length_replicate. apply Z2Nat.id. done.
  - reflexivity.
  - exists new, Parts. exact H.
Defined.


(** ** The requests an operation sends *)

Lemma extends_refl (w : World) : extends w w.
Proof. exists []. by rewrite app_nil_r. Qed.

Lemma extends_trans (w1 w2 w3 : World) :
  extends w1 w2 → extends w2 w3 → extends w1 w3.
Proof.
  intros (new1 & H1 & Hb1) (new2 & H2 & Hb2). exists (new1 ++ new2).
  rewrite H2, H1, app_assoc. split; [done|]. by apply Forall_app.
Qed.

Lemma extends_print (line : string) (w : World) : extends w (print line w).2.
Proof. exists []. by rewrite app_nil_r. Qed.

Lemma extends_remote {A} (req : Request) (serve : Spaces → Reply A)
  (w : World) :
  bare req → extends w (remote_call req serve w).2.
Proof.
  intros Hreq. exists [req]. split; [apply remote_call_recorded|].
  by apply Forall_singleton.
Qed.

Lemma createFolder_request (folderPath : string) (w : World) :
  requests (createFolder folderPath w).2
  = requests w
      ++ [put_object (mkPutObject (bucket_name (self w)) (folderPath +:+ "/")
                        (Bytes []) None None None)].
Proof.
  unfold createFolder. rewrite bind_run. cbn [get_self].
  rewrite try_run, bind_run. unfold client_put_object. cbv zeta.
  destruct (remote_call_recorded
              (put_object (mkPutObject (bucket_name (self w))
                             (folderPath +:+ "/") (Bytes []) None None None))
              (serve_put_object (mkPutObject (bucket_name (self w))
                                   (folderPath +:+ "/") (Bytes []) None None
                                   None)) w) as [Hreqs _].
  by destruct (remote_call _ _ w) as [[[]|[]] w1].
Qed.

Lemma folderExists_request (folderPath : string) (w : World) :
  requests (folderExists folderPath w).2
  = requests w ++ [head_object (bucket_name (self w)) (folderPath +:+ "/")].
Proof.
  unfold folderExists. rewrite bind_run. cbn [get_self].
  rewrite try_run, bind_run. unfold client_head_object.
  destruct (remote_call_recorded
              (head_object (bucket_name (self w)) (folderPath +:+ "/"))
              (serve_head_object (bucket_name (self w)) (folderPath +:+ "/"))
              w) as [Hreqs _].
  destruct (remote_call _ _ w) as [[[]|[e| | | | |]] w1]; try done.
  cbn [fst snd] in *. by destruct (decide (Code e = "404")).
Qed.

(** The listing request of [deleteFolder] has the folder path itself as
    its prefix. *)
Lemma deleteFolder_request (folderPath : string) (w : World) :
  ∃ more,
    requests (deleteFolder folderPath w).2
    = requests w
        ++ list_objects (bucket_name (self w)) folderPath None :: more.
Proof.
  set (body := λ (page : Page) (_ : unit),
         match Contents page with
         | Some contents =>
             client_delete_objects (bucket_name (self w)) (Key <$> contents)
         | None => mret tt
         end).
  set (handler := λ e,
         print ("An error occurred while deleting the folder: "
                  +:+ str_ClientError e)).
  set (done_ := print ("Successfully deleted folder: " +:+ folderPath)).
  assert (Hrest : ∀ (m : Py unit) w1,
            framed extends m →
            requests w1
            = requests w ++ [list_objects (bucket_name (self w)) folderPath None] →
            ∃ more,
              requests (try_except_ClientError (_ ← m; done_) handler w1).2
              = requests w
                  ++ list_objects (bucket_name (self w)) folderPath None
                       :: more).
  { intros m w1 Hm Hw1.
    assert (Hf : framed extends (try_except_ClientError (_ ← m; done_) handler)).
    { apply (framed_try extends extends_trans).
      - apply (framed_bind extends extends_trans); [done|].
        intros _. apply (framed_print extends extends_print).
      - intros e. apply (framed_print extends extends_print). }
    destruct (Hf w1) as (more & -> & _). exists more.
    by rewrite Hw1, <- app_assoc. }
  assert (Hbody : ∀ page a, framed extends (body page a)).
  { intros page a. unfold body. destruct (Contents page).
    - apply (framed_remote extends (@extends_remote)). done.
    - apply (framed_ret extends extends_refl). }
  unfold deleteFolder. rewrite bind_run. cbn [get_self].
  fold body handler done_. rewrite try_run, bind_run.
  unfold paginate_list_objects, for_page_in.
  destruct (buckets (remote w) !! bucket_name (self w)) as [objects|].
  - destruct (pages_of_cons objects folderPath None) as (page & pages & ->).
    cbn [fetch_pages]. rewrite bind_run.
    destruct (remote_call_recorded (A := unit)
                (list_objects (bucket_name (self w)) folderPath None)
                (λ s, inr (tt, s)) w) as [Hreqs _].
    destruct (remote_call _ _ w) as [[[]|e] w1]; cbn [fst snd] in *.
    + apply (Hrest (acc' ← body page tt;
                    fetch_pages
                      (list_objects (bucket_name (self w)) folderPath)
                      (last_listed page) pages body acc') w1); [|done].
      apply (framed_bind extends extends_trans); [apply Hbody|].
      intros acc'.
      by apply (framed_fetch_pages extends extends_refl extends_trans
                  (@extends_remote)).
    + exists []. by destruct e; cbn [fst snd handler print requests].
  - rewrite bind_run.
    destruct (remote_call_recorded (A := unit)
                (list_objects (bucket_name (self w)) folderPath None)
                (λ _, inl NoSuchBucket) w) as [Hreqs _].
    destruct (remote_call _ _ w) as [[[]|e] w1]; cbn [fst snd] in *.
    + exists []. done.
    + exists []. by destruct e; cbn [fst snd handler print requests].
Qed.



Lemma fetch_pages_listFolders (request : option string → Request)
  (token : option string) (pages : list Page) (folders : list string)
  (w : World) (names : list string) :
  (fetch_pages request token pages
     (λ page folders,
        match CommonPrefixes page with
        | Some common_prefixes =>
            lift (extend_with (λ prefix, dict_replace prefix prefix "")
                    folders common_prefixes)
        | None => mret folders
        end) folders w).1 = Return names →
  names = folders.
Proof.
  revert token folders w. induction pages as [|page pages IH];
    intros token folders w.
  - by intros [= ->].
  - cbn [fetch_pages]. rewrite bind_run.
    destruct (remote_call _ _ w) as [[[]|e] w1]; [|done].
    rewrite bind_run. destruct (CommonPrefixes page) as [[|cp cps]|].
    + apply IH.
    + done.
    + apply IH.
Qed.

(** C5 fails on the code.  With the key [a/b/c/file.txt] in the bucket,
    the listing under [a/] has the common prefix [a/b/], and
    [listFolders "a/"] raises [AttributeError]: the loop variable of
    the generator is a dictionary, on which [replace] is looked up.  In
    no world does [listFolders] return a name. *)
Theorem listFolders_never_names_a_folder :
  (listFolders "a/" (demo_world nested_keys [])).1
  = Raise (AttributeError "'dict' object has no attribute 'replace'")
  ∧ pages_of nested_keys "a/" (Some "/")
    = [{| Contents := None;
          CommonPrefixes := Some [{| Prefix := "a/b/" |}];
          last_listed := Some "a/b/" |}]
  ∧ (∀ prefix w names,
       (listFolders prefix w).1 = Return names → names = []).
Proof.
  split_and!; [by vm_compute|by vm_compute|].
  intros prefix w names. unfold listFolders. rewrite bind_run.
  cbn [get_self]. rewrite try_run.
  unfold paginate_list_objects_v2, for_page_in.
  destruct (buckets (remote w) !! bucket_name (self w)) as [objects|].
  - pose proof (fetch_pages_listFolders
      (list_objects_v2 (bucket_name (self w)) prefix "/") None
      (pages_of objects prefix (Some "/")) [] w) as H.
    destruct (fetch_pages _ _ _ _ _ w) as [[folders|[]] w1]; cbn [fst] in *;
      try done.
    + intros [= <-]. by apply H.
    + by intros [= <-].
  - rewrite bind_run.
    destruct (remote_call _ _ w) as [[[]|[]] w1]; cbn [fst]; try done;
      by intros [= <-].
Qed.


(** C7 fails on the code.  [createFolder] and [folderExists] address the
    key [folderPath/] and [listFolderContents "a"] lists under [a/], but
    the listing request of [deleteFolder] has the folder path itself as
    its prefix: [deleteFolder "a"] lists with the prefix [a] and deletes
    the sibling key [ab.txt] with the folder. *)
Theorem deleteFolder_takes_sibling_keys :
  (∀ folderPath w,
     requests (createFolder folderPath w).2
     = requests w
         ++ [put_object (mkPutObject (bucket_name (self w))
                           (folderPath +:+ "/") (Bytes []) None None None)])
  ∧ (∀ folderPath w,
       requests (folderExists folderPath w).2
       = requests w
           ++ [head_object (bucket_name (self w)) (folderPath +:+ "/")])
  ∧ (∀ folderPath w,
       ∃ more,
         requests (deleteFolder folderPath w).2
         = requests w
             ++ list_objects (bucket_name (self w)) folderPath None :: more)
  ∧ requests (listFolderContents "a" (demo_world folder_and_sibling [])).2
    = [head_object "demo" "a/"; list_objects_v2 "demo" "a/" "/" None]
  ∧ requests (deleteFolder "a" (demo_world folder_and_sibling [])).2
    = [list_objects "demo" "a" None;
       delete_objects "demo" ["a/"; "a/x.txt"; "ab.txt"]]
  ∧ object_at (demo_world folder_and_sibling []) "ab.txt" = Some hello
  ∧ object_at (deleteFolder "a" (demo_world folder_and_sibling [])).2 "ab.txt"
    = None.
Proof.
  split_and!.
  - apply createFolder_request.
  - apply folderExists_request.
  - apply deleteFolder_request.
  - by vm_compute.
  - by vm_compute.
  - by vm_compute.
  - by vm_compute.
Qed.

(** C8 as stated fails: the [put_object] request of [uploadFile] carries
    no ACL, cache-control or encryption argument, and the transport
    configuration of the client has no retry policy. *)
Lemma uploadFile_request_carries_no_settings :
  requests (uploadFile "reports/2024/jan.csv" (Bytes hello)
              (demo_world ∅ [])).2
  = [put_object
       {| po_Bucket := "demo";
          po_Key := "reports/2024/jan.csv";
          po_Body := Bytes hello;
          po_ACL := None;
          po_CacheControl := None;
          po_ServerSideEncryption := None |}]
  ∧ cfg_retries (config (client (__init__ demo_environ))) = None.
Proof. vm_compute. done. Qed.

(** C8, in the form the code satisfies.  The only setting passed to the
    transport configuration is the addressing style [virtual].  The
    cache-control of 86400 seconds, the ACL [public-read-write], the
    encryption scheme AES256 and the retry policy of 5 attempts in
    standard mode are attributes of the instance, and no request of any
    operation carries an ACL, cache-control or encryption argument. *)
Theorem fixed_settings_are_kept_not_sent (environ : Environ) (op : Operation)
  (w : World) :
  let inst := __init__ environ in
  cfg_s3 (config (client inst)) = Some [("addressing_style", "virtual")]
  ∧ cfg_retries (config (client inst)) = None
  ∧ object_parameters inst = [("CacheControl", "max-age=86400")]
  ∧ default_acl inst = "public-read-write"
  ∧ encryption_scheme inst = [("ServerSideEncryption", "AES256")]
  ∧ retries inst = {| max_attempts := 5; mode := "standard" |}
  ∧ ∃ new, requests (run op w).2 = requests w ++ new ∧ Forall bare new.
Proof.
  cbv zeta. split_and!; try done.
  apply (framed_run extends extends_refl extends_trans extends_print
           (@extends_remote)).
Qed.

(** C9. Every public operation leaves every attribute of the instance
    as the constructor set it, for all arguments and whatever the
    service answers. *)
Theorem operations_leave_the_instance_unchanged (op : Operation) (w : World) :
  self (run op w).2 = self w.
Proof.
  apply (framed_run (λ w w', self w' = self w)).
  - done.
  - intros w1 w2 w3 H1 H2. by rewrite H2.
  - done.
  - intros A req serve w0 _. apply remote_call_recorded.
Qed.

(** * Further properties *)

(** ** Single requests on a service that answers *)

Lemma remote_call_served {A} (req : Request) (serve : Spaces → Reply A)
  (w : World) :
  faults (remote w) = [] →
  remote_call req serve w
  = match serve (remote w) with
    | inl e =>
        (Raise (ClientError (mkError e.1 e.2 (request_name req))),
         mkWorld (self w) (remote w) (requests w ++ [req]) (stdout w))
    | inr (a, s') =>
        (Return a, mkWorld (self w) s' (requests w ++ [req]) (stdout w))
    end.
Proof. intros H. unfold remote_call. by rewrite H. Qed.

Lemma serving_bucket (w : World) :
  serving w →
  ∃ objects, buckets (remote w) !! bucket_name (self w) = Some objects.
Proof. by intros [_ [objects H]]; exists objects. Qed.

Lemma object_at_lookup (w : World) (objects : gmap string bytes)
  (Key : string) :
  buckets (remote w) !! bucket_name (self w) = Some objects →
  object_at w Key = objects !! Key.
Proof. intros H. unfold object_at. by rewrite H. Qed.

(** A [put_object] that is answered: the configured bucket holds the
    body under the key, every other key is as before. *)
Lemma put_object_served (Key : string) (Body : FileData) (w : World) :
  serving w →
  ∃ w',
    client_put_object (bucket_name (self w)) Key Body w = (Return tt, w')
    ∧ self w' = self w
    ∧ serving w'
    ∧ stdout w' = stdout w
    ∧ requests w'
      = requests w
          ++ [put_object (mkPutObject (bucket_name (self w)) Key Body
                            None None None)]
    ∧ object_at w' Key = Some (body_bytes Body)
    ∧ ∀ Key', Key' ≠ Key → object_at w' Key' = object_at w Key'.
Proof.
  intros [Hfaults [objects Hbucket]]. eexists. split.
  - unfold client_put_object. cbv zeta. rewrite remote_call_served by done.
    unfold serve_put_object, in_bucket. cbn [po_Bucket po_Key po_Body].
    rewrite Hbucket. reflexivity.
  - unfold serving, object_at. cbn [self remote requests stdout set_buckets
      buckets faults]. rewrite lookup_insert_eq. cbn [mbind option_bind].
    split_and!; try done.
    + by apply lookup_insert_eq.
    + intros Key' Hne. rewrite Hbucket. cbn [mbind option_bind].
      by apply lookup_insert_ne.
Qed.

Lemma head_object_served (Key : string) (w : World) :
  faults (remote w) = [] →
  succeeds (client_head_object (bucket_name (self w)) Key) w
  = bool_decide (is_Some (object_at w Key)).
Proof.
  intros Hfaults. unfold succeeds, client_head_object.
  rewrite remote_call_served by done. unfold serve_head_object, object_at.
  destruct (buckets (remote w) !! bucket_name (self w)) as [objects|];
    cbn [mbind option_bind]; [|by rewrite bool_decide_eq_false_2 by by intros []].
  destruct (objects !! Key); cbn [fst].
  - by rewrite bool_decide_eq_true_2 by done.
  - by rewrite bool_decide_eq_false_2 by by intros [].
Qed.

Lemma folderExists_served (folderPath : string) (w : World) :
  faults (remote w) = [] →
  (folderExists folderPath w).1
  = Return (bool_decide (is_Some (object_at w (folderPath +:+ "/")))).
Proof.
  intros H. rewrite folderExists_outcome. by rewrite head_object_served.
Qed.

Lemma fileExists_served (filePath : string) (w : World) :
  faults (remote w) = [] →
  (fileExists filePath w).1
  = Return (bool_decide (is_Some (object_at w filePath))).
Proof.
  intros H.
  rewrite (exists_check_outcome _ _ _ _ _ (fileExists_check filePath w)).
  by rewrite head_object_served.
Qed.

Lemma streamFileContent_served (filePath : string) (chunkSize : Z) (w : World)
  (content : bytes) :
  faults (remote w) = [] →
  object_at w filePath = Some content →
  (streamFileContent filePath chunkSize w).1
  = Return (chunks_of content chunkSize).
Proof.
  intros Hfaults Hobj. unfold object_at in Hobj.
  destruct (buckets (remote w) !! bucket_name (self w)) as [objects|] eqn:Hb;
    [|done].
  cbn in Hobj.
  unfold streamFileContent. rewrite bind_run. cbn [get_self].
  rewrite try_run, bind_run.
  unfold client_get_object, remote_call. rewrite Hfaults.
  unfold serve_get_object, in_bucket. rewrite Hb, Hobj.
  unfold lift. by rewrite read_chunks_total.
Qed.

(** The shape [uploadFile], [updateFile] and [createFolder] share: one
    [put_object], then a line printed. *)
Lemma put_then_print_served (Key : string) (Body : FileData) (line : string)
  (handler : ErrorResponse → Py unit) (w : World) :
  serving w →
  ∃ w',
    (self ← get_self;
     try_except_ClientError
       (_ ← client_put_object (bucket_name self) Key Body; print line)
       handler) w
    = (Return tt, w')
    ∧ self w' = self w
    ∧ serving w'
    ∧ stdout w' = stdout w ++ [line]
    ∧ requests w'
      = requests w
          ++ [put_object (mkPutObject (bucket_name (self w)) Key Body
                            None None None)]
    ∧ object_at w' Key = Some (body_bytes Body)
    ∧ ∀ Key', Key' ≠ Key → object_at w' Key' = object_at w Key'.
Proof.
  intros Hs. rewrite bind_run. cbn [get_self]. rewrite try_run, bind_run.
  destruct (put_object_served Key Body w Hs)
    as (w1 & -> & Hself & Hserving & Hout & Hreqs & Hobj & Hothers).
  eexists. split; [reflexivity|].
  cbn [print snd self remote requests stdout].
  split_and!; [done|done|by rewrite Hout|done|done|done].
Qed.

(** [uploadFile], [updateFile] and [createFolder] when the request is
    answered. *)
Lemma uploadFile_served (filePath : string) (fileData : FileData) (w : World) :
  serving w →
  ∃ w',
    uploadFile filePath fileData w = (Return tt, w')
    ∧ self w' = self w
    ∧ serving w'
    ∧ stdout w' = stdout w ++ ["Successfully uploaded file: " +:+ filePath]
    ∧ requests w'
      = requests w
          ++ [put_object (mkPutObject (bucket_name (self w)) filePath fileData
                            None None None)]
    ∧ object_at w' filePath = Some (body_bytes fileData)
    ∧ ∀ Key', Key' ≠ filePath → object_at w' Key' = object_at w Key'.
Proof. apply put_then_print_served. Qed.

Lemma updateFile_served (filePath : string) (fileData : FileData) (w : World) :
  serving w →
  ∃ w',
    updateFile filePath fileData w = (Return tt, w')
    ∧ self w' = self w
    ∧ serving w'
    ∧ stdout w' = stdout w ++ ["Successfully updated file: " +:+ filePath]
    ∧ requests w'
      = requests w
          ++ [put_object (mkPutObject (bucket_name (self w)) filePath fileData
                            None None None)]
    ∧ object_at w' filePath = Some (body_bytes fileData)
    ∧ ∀ Key', Key' ≠ filePath → object_at w' Key' = object_at w Key'.
Proof. apply put_then_print_served. Qed.

Lemma createFolder_served (folderPath : string) (w : World) :
  serving w →
  ∃ w',
    createFolder folderPath w = (Return tt, w')
    ∧ self w' = self w
    ∧ serving w'
    ∧ stdout w' = stdout w ++ ["Successfully created folder: " +:+ folderPath]
    ∧ requests w'
      = requests w
          ++ [put_object (mkPutObject (bucket_name (self w))
                            (folderPath +:+ "/") (Bytes []) None None None)]
    ∧ object_at w' (folderPath +:+ "/") = Some (body_bytes (Bytes []))
    ∧ ∀ Key', Key' ≠ folderPath +:+ "/" → object_at w' Key' = object_at w Key'.
Proof. apply put_then_print_served. Qed.

(** X1. On a service that answers and holds the configured bucket,
    createFolder(folderPath) stores an empty object under folderPath +
    [/]; afterwards folderExists(folderPath) returns True and
    listFolderContents(folderPath) returns a list instead of raising,
    and every other key holds what it held. *)
Theorem createFolder_then_folderExists (folderPath : string) (w : World) :
  serving w →
  let w' := (createFolder folderPath w).2 in
  object_at w' (folderPath +:+ "/") = Some []
  ∧ (folderExists folderPath w').1 = Return true
  ∧ (∃ names, (listFolderContents folderPath w').1 = Return names)
  ∧ (∀ Key, Key ≠ folderPath +:+ "/" → object_at w' Key = object_at w Key).
Proof.
  intros Hs. cbv zeta.
  destruct (createFolder_served folderPath w Hs)
    as (w' & -> & _ & [Hfaults _] & _ & _ & Hobj & Hothers).
  cbn [snd].
  assert (He : (folderExists folderPath w').1 = Return true).
  { rewrite folderExists_served, Hobj by done.
    by rewrite bool_decide_eq_true_2 by done. }
  split_and!; try done. by apply listFolderContents_present.
Qed.

Lemma createFolder_then_folderExists_witness :
  serving (demo_world ∅ [])
  ∧ (folderExists "docs" (createFolder "docs" (demo_world ∅ [])).2).1
    = Return true.
Proof.
  assert (H : serving (demo_world ∅ [])).
  { split; [reflexivity|]. exists ∅. apply lookup_singleton_eq. }
  split; [exact H|].
  apply (createFolder_then_folderExists "docs" (demo_world ∅ []) H).
Defined.

(** X2. After uploadFile(filePath, fileData) on a service that answers,
    fileExists(filePath) returns True, and readFile and
    streamFileContent with a chunk size of at least 1 yield the same
    chunks, whose concatenation is the uploaded bytes. *)
Theorem uploadFile_then_read (filePath : string) (fileData : FileData)
  (c : Z) (w : World) :
  1 ≤ c → serving w →
  let w' := (uploadFile filePath fileData w).2 in
  (fileExists filePath w').1 = Return true
  ∧ (readFile filePath c w').1
    = Return (chunks_of (body_bytes fileData) c)
  ∧ (streamFileContent filePath c w').1
    = Return (chunks_of (body_bytes fileData) c)
  ∧ concat (chunks_of (body_bytes fileData) c) = body_bytes fileData.
Proof.
  intros Hc Hs. cbv zeta.
  destruct (uploadFile_served filePath fileData w Hs)
    as (w' & -> & _ & [Hfaults _] & _ & _ & Hobj & _).
  cbn [snd]. split_and!.
  - rewrite fileExists_served, Hobj by done.
    by rewrite bool_decide_eq_true_2 by done.
  - by apply readFile_served.
  - by apply streamFileContent_served.
  - by apply chunks_of_concat.
Qed.

Lemma uploadFile_then_read_witness :
  1 ≤ 2 ∧ serving (demo_world ∅ [])
  ∧ (readFile "greeting.txt" 2
       (uploadFile "greeting.txt" (Bytes hello) (demo_world ∅ [])).2).1
    = Return (chunks_of hello 2).
Proof.
  assert (H1 : 1 ≤ 2) by lia.
  assert (H : serving (demo_world ∅ [])).
  { split; [reflexivity|]. exists ∅. apply lookup_singleton_eq. }
  split; [exact H1|]. split; [exact H|].
  apply (uploadFile_then_read "greeting.txt" (Bytes hello) 2
           (demo_world ∅ []) H1 H).
Defined.

(** X3. updateFile after uploadFile on the same key leaves the second body
    under the key and every other key as it was before both; on the same
    world updateFile and uploadFile leave the service in the same state. *)
Theorem updateFile_overwrites (filePath : string) (first second : FileData)
  (w : World) :
  serving w →
  let w1 := (uploadFile filePath first w).2 in
  let w2 := (updateFile filePath second w1).2 in
  object_at w2 filePath = Some (body_bytes second)
  ∧ (∀ Key, Key ≠ filePath → object_at w2 Key = object_at w Key)
  ∧ remote (updateFile filePath second w).2
    = remote (uploadFile filePath second w).2.
Proof.
  intros Hs. cbv zeta.
  destruct (uploadFile_served filePath first w Hs)
    as (w1 & -> & _ & Hs1 & _ & _ & _ & Hothers1).
  cbn [snd].
  destruct (updateFile_served filePath second w1 Hs1)
    as (w2 & -> & _ & _ & _ & _ & Hobj2 & Hothers2).
  cbn [snd]. split_and!; [done| |].
  - intros Key Hne. by rewrite Hothers2, Hothers1.
  - unfold updateFile, uploadFile. rewrite !bind_run. cbn [get_self].
    rewrite !try_run, !bind_run.
    by destruct (client_put_object _ _ _ w) as [[[]|[]] w'].
Qed.

Lemma updateFile_overwrites_witness :
  serving (demo_world ∅ [])
  ∧ object_at
      (updateFile "greeting.txt" (Bytes [])
         (uploadFile "greeting.txt" (Bytes hello) (demo_world ∅ [])).2).2
      "greeting.txt"
    = Some [].
Proof.
  assert (H : serving (demo_world ∅ [])).
  { split; [reflexivity|]. exists ∅. apply lookup_singleton_eq. }
  split; [exact H|].
  apply (updateFile_overwrites "greeting.txt" (Bytes hello) (Bytes [])
           (demo_world ∅ []) H).
Defined.

(** ** Listings and their pages *)

Lemma sorted_keys_elem {V} (m : gmap string V) (k : string) :
  k ∈ sorted_keys m ↔ is_Some (m !! k).
Proof.
  unfold sorted_keys. rewrite merge_sort_Permutation, list_elem_of_fmap.
  split.
  - intros [[k' v] [-> H%elem_of_map_to_list]]. by exists v.
  - intros [v H]. exists (k, v). split; [done|]. by apply elem_of_map_to_list.
Qed.

Lemma prefix_append (p x : string) : String.prefix p (p +:+ x) = true.
Proof.
  induction p as [|c p IH]; [by destruct x|].
  rewrite append_cons. cbn [String.prefix].
  by destruct (ascii_dec c c).
Qed.

Lemma classify_prefixed (prefix : string) (Delimiter : option string)
  (k : string) :
  String.prefix prefix k = true →
  String.prefix prefix (entry_name (classify prefix Delimiter k)) = true.
Proof.
  intros H. unfold classify. destruct Delimiter as [d|]; [|done].
  destruct (String.index 0 d _); [|done]. apply prefix_append.
Qed.

Lemma group_entries_elem (seen : option string) (es : list Entry) (e : Entry) :
  e ∈ group_entries seen es → e ∈ es.
Proof.
  revert seen. induction es as [|[k|p] es IH]; intros seen;
    cbn [group_entries]; [done| |].
  - rewrite !elem_of_cons. intros [->|H]; [by left|right; by eapply IH].
  - destruct (decide (seen = Some p)).
    + intros H. right. by eapply IH.
    + rewrite !elem_of_cons. intros [->|H]; [by left|right; by eapply IH].
Qed.

(** Every entry of a listing stands for a stored key that has the
    prefix, and its name has the prefix too. *)
Lemma listing_elem (objects : gmap string bytes) (prefix : string)
  (Delimiter : option string) (e : Entry) :
  e ∈ listing objects prefix Delimiter →
  ∃ k, is_Some (objects !! k) ∧ String.prefix prefix k = true
       ∧ e = classify prefix Delimiter k.
Proof.
  unfold listing. intros H%group_entries_elem.
  apply list_elem_of_fmap in H as (k & -> & H).
  apply list_elem_of_filter in H as [Hp Hk]. exists k.
  split_and!; [by apply sorted_keys_elem|done|done].
Qed.

Lemma cut_pages_concat (room : nat) (cur es : list Entry) :
  concat (cut_pages room cur es) = cur ++ es.
Proof.
  revert room cur. induction es as [|e es IH]; intros room cur;
    cbn [cut_pages].
  - cbn [concat]. by rewrite !app_nil_r.
  - destruct room.
    + cbn [concat]. by rewrite IH.
    + by rewrite IH, <- app_assoc.
Qed.

Lemma elem_of_concat {A} (x : A) (l : list A) (ls : list (list A)) :
  x ∈ l → l ∈ ls → x ∈ concat ls.
Proof.
  intros Hx. induction ls as [|l' ls IH]; [by intros ?%elem_of_nil|].
  cbn [concat]. rewrite elem_of_cons, elem_of_app.
  intros [<-|H]; [by left|right; by apply IH].
Qed.

Lemma pages_of_elem (objects : gmap string bytes) (prefix : string)
  (Delimiter : option string) (page : Page) :
  page ∈ pages_of objects prefix Delimiter →
  ∃ es, page = to_page es ∧ ∀ e, e ∈ es → e ∈ listing objects prefix Delimiter.
Proof.
  unfold pages_of. intros (es & -> & H)%list_elem_of_fmap. exists es.
  split; [done|]. intros e He.
  pose proof (cut_pages_concat MaxKeys [] (listing objects prefix Delimiter))
    as Hc. cbn [app] in Hc. rewrite <- Hc. by apply (elem_of_concat e es).
Qed.

Lemma nonempty_Some {A} (l l' : list A) : nonempty l = Some l' → l' = l.
Proof. destruct l; [done|]. by intros [= <-]. Qed.

(** The keys and the common prefixes of a page all start with the prefix
    of the listing, and the keys are stored. *)
Lemma page_Contents (objects : gmap string bytes) (prefix : string)
  (Delimiter : option string) (page : Page) (contents : list ObjectEntry) :
  page ∈ pages_of objects prefix Delimiter →
  Contents page = Some contents →
  Forall (λ object, String.prefix prefix (Key object) = true
                    ∧ is_Some (objects !! Key object)) contents.
Proof.
  intros (es & -> & Hes)%pages_of_elem H%nonempty_Some. subst contents.
  apply Forall_forall. intros object (e & He & Hobj)%list_elem_of_omap.
  destruct e as [k|p]; [|done]. injection Hobj as <-. cbn [Key].
  destruct (listing_elem _ _ _ _ (Hes _ He)) as (k' & Hk' & Hp & Hc).
  unfold classify in Hc. destruct Delimiter as [d|].
  - destruct (String.index 0 d _); [done|]. by injection Hc as ->.
  - by injection Hc as ->.
Qed.

Lemma page_CommonPrefixes (objects : gmap string bytes) (prefix : string)
  (Delimiter : option string) (page : Page) (prefixes : list CommonPrefix) :
  page ∈ pages_of objects prefix Delimiter →
  CommonPrefixes page = Some prefixes →
  Forall (λ p, String.prefix prefix (Prefix p) = true) prefixes.
Proof.
  intros (es & -> & Hes)%pages_of_elem H%nonempty_Some. subst prefixes.
  apply Forall_forall. intros cp (e & He & Hcp)%list_elem_of_omap.
  destruct e as [k|p]; [done|]. injection Hcp as <-. cbn [Prefix].
  destruct (listing_elem _ _ _ _ (Hes _ He)) as (k' & Hk' & Hp & Hc).
  change p with (entry_name (EPrefix p)). rewrite Hc.
  by apply classify_prefixed.
Qed.

(** A listing without delimiter has one key entry per stored key with
    the prefix. *)
Lemma listing_keys (objects : gmap string bytes) (prefix : string) :
  listing objects prefix None
  = EKey <$> filter (λ k, String.prefix prefix k = true) (sorted_keys objects).
Proof.
  unfold listing. generalize (filter (λ k, String.prefix prefix k = true)
                                (sorted_keys objects)).
  intros ks.
  replace (classify prefix None <$> ks) with (EKey <$> ks)
    by (by apply list_fmap_ext).
  generalize (@None string).
  induction ks as [|k ks IH]; intros seen; [done|].
  cbn [fmap list_fmap group_entries]. f_equal. apply IH.
Qed.

(** ** What an operation leaves alone *)

Section Keeps.
Variable T : string → bool.

Lemma keeps_refl (w : World) : keeps T w w.
Proof. done. Qed.

Lemma keeps_trans (w1 w2 w3 : World) :
  keeps T w1 w2 → keeps T w2 w3 → keeps T w1 w3.
Proof.
  intros [Hs1 H1] [Hs2 H2]. split; [by rewrite Hs2|].
  intros k Hk. by rewrite H2, H1.
Qed.

Lemma keeps_print (line : string) (w : World) : keeps T w (print line w).2.
Proof. done. Qed.

(** A request keeps the objects outside [T] when its service function
    does, in every bucket. *)
Lemma keeps_remote {A} (req : Request) (serve : Spaces → Reply A) :
  (∀ s a s' b k, serve s = inr (a, s') → T k = false →
     (objects ← buckets s' !! b; objects !! k)
     = (objects ← buckets s !! b; objects !! k)) →
  framed (keeps T) (remote_call req serve).
Proof.
  intros Hserve w.
  unfold remote_call. cbv zeta.
  destruct (faults (remote w)) as [|[e|] script].
  - destruct (serve (remote w)) as [e|[a s']] eqn:Hserved.
    + done.
    + split; [done|]. intros k Hk. unfold object_at. cbn [snd self remote].
      by rewrite (Hserve _ _ _ _ _ Hserved Hk).
  - done.
  - destruct (serve (set_faults script (remote w))) as [e|[a s']] eqn:Hserved.
    + done.
    + split; [done|]. intros k Hk. unfold object_at. cbn [snd self remote].
      by rewrite (Hserve _ _ _ _ _ Hserved Hk).
Qed.

Lemma keeps_reading {A} (req : Request) (serve : Spaces → Reply A) :
  (∀ s a s', serve s = inr (a, s') → buckets s' = buckets s) →
  framed (keeps T) (remote_call req serve).
Proof.
  intros H. apply keeps_remote. intros s a s' b k Hs _. by rewrite (H _ _ _ Hs).
Qed.

Lemma keeps_head_bucket (Bucket : string) :
  framed (keeps T) (client_head_bucket Bucket).
Proof.
  apply keeps_reading. intros s a s'. unfold serve_head_bucket.
  destruct (buckets s !! Bucket); [by intros [= _ <-]|done].
Qed.

Lemma keeps_list_buckets : framed (keeps T) client_list_buckets.
Proof. apply keeps_reading. by intros s a s' [= _ <-]. Qed.

Lemma keeps_head_object (Bucket Key : string) :
  framed (keeps T) (client_head_object Bucket Key).
Proof.
  apply keeps_reading. intros s a s'. unfold serve_head_object.
  destruct (buckets s !! Bucket) as [objects|]; [|done].
  destruct (objects !! Key); [by intros [= _ <-]|done].
Qed.

Lemma keeps_get_object (Bucket Key : string) :
  framed (keeps T) (client_get_object Bucket Key).
Proof.
  apply keeps_reading. intros s a s'. unfold serve_get_object, in_bucket.
  destruct (buckets s !! Bucket) as [objects|]; [|done].
  destruct (objects !! Key); [by intros [= _ <-]|done].
Qed.

Lemma keeps_create_multipart_upload (Bucket Key : string) :
  framed (keeps T) (client_create_multipart_upload Bucket Key).
Proof.
  apply keeps_reading. intros s a s'.
  unfold serve_create_multipart_upload, in_bucket.
  destruct (buckets s !! Bucket) as [objects|]; [|done]. by intros [= _ <-].
Qed.

Lemma keeps_upload_part (Body : bytes) (Bucket Key : string) (n : Z)
  (UploadId : string) :
  framed (keeps T) (client_upload_part Body Bucket Key n UploadId).
Proof.
  apply keeps_reading. intros s a s'. unfold serve_upload_part, find_upload.
  destruct (uploads s !! UploadId) as [u|]; [|done].
  destruct (decide _); [|done]. by intros [= _ <-].
Qed.

Lemma keeps_create_bucket (Bucket : string) :
  framed (keeps T) (client_create_bucket Bucket).
Proof.
  apply keeps_remote. intros s a s' b k. unfold serve_create_bucket.
  destruct (buckets s !! Bucket) eqn:Hb; [done|]. intros [= _ <-] _.
  cbn [set_buckets buckets]. destruct (decide (Bucket = b)) as [<-|Hne].
  - by rewrite lookup_insert_eq, Hb.
  - by rewrite lookup_insert_ne.
Qed.

Lemma keeps_put_object (Bucket Key : string) (Body : FileData) :
  T Key = true → framed (keeps T) (client_put_object Bucket Key Body).
Proof.
  intros HT. apply keeps_remote. intros s a s' b k.
  unfold serve_put_object, in_bucket. cbn [po_Bucket po_Key po_Body].
  destruct (buckets s !! Bucket) as [objects|] eqn:Hb; [|done].
  intros [= _ <-] Hk. cbn [set_buckets buckets].
  destruct (decide (Bucket = b)) as [<-|Hne].
  - rewrite lookup_insert_eq, Hb. cbn [mbind option_bind].
    apply lookup_insert_ne. by intros ->; rewrite HT in Hk.
  - by rewrite lookup_insert_ne.
Qed.

Lemma keeps_delete_object (Bucket Key : string) :
  T Key = true → framed (keeps T) (client_delete_object Bucket Key).
Proof.
  intros HT. apply keeps_remote. intros s a s' b k.
  unfold serve_delete_object, in_bucket.
  destruct (buckets s !! Bucket) as [objects|] eqn:Hb; [|done].
  intros [= _ <-] Hk. cbn [set_buckets buckets].
  destruct (decide (Bucket = b)) as [<-|Hne].
  - rewrite lookup_insert_eq, Hb. cbn [mbind option_bind].
    apply lookup_delete_ne. by intros ->; rewrite HT in Hk.
  - by rewrite lookup_insert_ne.
Qed.

Lemma keeps_delete_objects (Bucket : string) (Objects : list string) :
  Forall (λ k, T k = true) Objects →
  framed (keeps T) (client_delete_objects Bucket Objects).
Proof.
  intros HT. apply keeps_remote. intros s a s' b k.
  unfold serve_delete_objects, in_bucket.
  destruct (buckets s !! Bucket) as [objects|] eqn:Hb; [|done].
  intros [= _ <-] Hk. cbn [set_buckets buckets].
  destruct (decide (Bucket = b)) as [<-|Hne].
  - rewrite lookup_insert_eq, Hb. cbn [mbind option_bind].
    apply lookup_foldr_delete_not_elem_of. intros Hin.
    rewrite Forall_forall in HT. by rewrite (HT _ Hin) in Hk.
  - by rewrite lookup_insert_ne.
Qed.

Lemma keeps_complete_multipart_upload (Bucket Key : string)
  (Parts : list Part) (UploadId : string) :
  T Key = true →
  framed (keeps T)
    (client_complete_multipart_upload Bucket Key Parts UploadId).
Proof.
  intros HT. apply keeps_remote. intros s a s' b k.
  unfold serve_complete_multipart_upload, find_upload, in_bucket.
  destruct (uploads s !! UploadId) as [u|]; [|done].
  destruct (decide _); [|done].
  destruct (buckets s !! Bucket) as [objects|] eqn:Hb; [|done].
  destruct (assemble _ _ _); [done|].
  intros [= _ <-] Hk. cbn [set_uploads set_buckets buckets].
  destruct (decide (Bucket = b)) as [<-|Hne].
  - rewrite lookup_insert_eq, Hb. cbn [mbind option_bind].
    apply lookup_insert_ne. by intros ->; rewrite HT in Hk.
  - by rewrite lookup_insert_ne.
Qed.

Lemma keeps_fetch_pages {A} (request : option string → Request)
  (token : option string) (pages : list Page) (body : Page → A → Py A)
  (acc : A) :
  (∀ page a, page ∈ pages → framed (keeps T) (body page a)) →
  framed (keeps T) (fetch_pages request token pages body acc).
Proof.
  revert token acc. induction pages as [|page pages IH];
    intros token acc Hbody.
  - apply (framed_ret _ keeps_refl).
  - cbn [fetch_pages]. apply (framed_bind _ keeps_trans).
    { apply keeps_reading. by intros s a s' [= _ <-]. }
    intros _. apply (framed_bind _ keeps_trans).
    { apply Hbody. by left. }
    intros acc'. apply IH. intros p a Hp. apply Hbody. by right.
Qed.

Lemma keeps_for_page_in {A} (request : option string → Request)
  (Bucket Prefix : string) (Delimiter : option string)
  (body : Page → A → Py A) (acc : A) :
  (∀ objects page a, page ∈ pages_of objects Prefix Delimiter →
     framed (keeps T) (body page a)) →
  framed (keeps T) (for_page_in request Bucket Prefix Delimiter body acc).
Proof.
  intros Hbody w. unfold for_page_in.
  destruct (buckets (remote w) !! Bucket) as [objects|].
  - apply keeps_fetch_pages. intros page a. apply Hbody.
  - apply (framed_bind _ keeps_trans); [by apply keeps_reading|].
    intros _. apply (framed_ret _ keeps_refl).
Qed.

Lemma keeps_upload_parts (fuel : nat) (filePath : string) (fileData : bytes)
  (chunkSize : Z) (upload_id : string) (part_number : Z) (parts : list Part) :
  framed (keeps T)
    (upload_parts fuel filePath fileData chunkSize upload_id part_number
       parts).
Proof.
  revert fileData part_number parts.
  induction fuel as [|fuel IH]; intros fileData part_number parts.
  - apply (framed_raise _ keeps_refl).
  - cbn [upload_parts]. destruct (read fileData chunkSize) as [chunk rest].
    destruct (is_empty chunk); [apply (framed_ret _ keeps_refl)|].
    apply (framed_bind _ keeps_trans); [apply (framed_get_self _ keeps_refl)|].
    intros self. apply (framed_bind _ keeps_trans); [apply keeps_upload_part|].
    intros part. apply IH.
Qed.
End Keeps.

Ltac keeps_step :=
  first
    [ apply (framed_ret _ (keeps_refl _))
    | apply (framed_raise _ (keeps_refl _))
    | apply (framed_lift _ (keeps_refl _))
    | apply (framed_get_self _ (keeps_refl _))
    | apply (framed_print _ (keeps_print _))
    | apply (framed_print_each _ (keeps_refl _) (keeps_trans _) (keeps_print _))
    | apply keeps_upload_parts
    | apply keeps_head_bucket | apply keeps_list_buckets
    | apply keeps_head_object | apply keeps_get_object
    | apply keeps_create_multipart_upload | apply keeps_create_bucket
    | apply keeps_put_object; apply String.eqb_refl
    | apply keeps_delete_object; apply String.eqb_refl
    | apply keeps_complete_multipart_upload; apply String.eqb_refl
    | apply (framed_bind _ (keeps_trans _)); [|intros ?]
    | apply (framed_try _ (keeps_trans _)); [|intros ?]
    | match goal with
      | |- framed _ (match Contents ?page with _ => _ end) =>
          destruct (Contents page) eqn:?
      | |- framed _ (match ?x with _ => _ end) => destruct x
      | |- framed _ (let _ := _ in _) => cbv zeta
      end ].

(** No operation changes an object outside the keys it is called on. *)
Lemma keeps_run (op : Operation) : framed (keeps (may_touch op)) (run op).
Proof.
  destruct op; unfold run, returning;
    unfold connectToBucket, listBuckets, createBucket, createFolder,
      folderExists, fileExists, uploadFile, updateFile, deleteFile,
      deleteFolder, listFolders, listFolderContents, streamFileContent,
      readFile, multipartUpload, uploadFileChunked, getActualFileNames,
      listFolderContents_page, paginate_list_objects,
      paginate_list_objects_v2;
    repeat keeps_step.
  all: try (apply keeps_for_page_in; intros objects page acc Hpage;
            repeat keeps_step).
  apply keeps_delete_objects. apply Forall_fmap.
  eapply Forall_impl; [eapply page_Contents; eassumption|].
  by intros object [H _].
Qed.

(** ** Deleting *)

Lemma deleteFile_served (filePath : string) (w : World) :
  serving w →
  ∃ w',
    deleteFile filePath w = (Return tt, w')
    ∧ serving w'
    ∧ stdout w' = stdout w ++ ["Successfully deleted file: " +:+ filePath]
    ∧ requests w'
      = requests w ++ [delete_object (bucket_name (self w)) filePath]
    ∧ object_at w' filePath = None.
Proof.
  intros [Hfaults [objects Hbucket]]. eexists. split.
  - unfold deleteFile. rewrite bind_run. cbn [get_self].
    rewrite try_run, bind_run. unfold client_delete_object.
    rewrite remote_call_served by done.
    unfold serve_delete_object, in_bucket. rewrite Hbucket.
    cbn [print]. reflexivity.
  - unfold serving, object_at.
    cbn [self remote requests stdout set_buckets buckets faults].
    rewrite lookup_insert_eq. cbn [mbind option_bind].
    split_and!; try done. apply lookup_delete_eq.
Qed.

(** The pages of a listing without delimiter, as lists of keys. *)
Lemma cut_pages_keys (room : nat) (cur ks : list string) :
  ∃ kss : list (list string),
    cut_pages room (EKey <$> cur) (EKey <$> ks)
    = (λ page : list string, EKey <$> page) <$> kss
    ∧ concat kss = cur ++ ks.
Proof.
  revert room cur. induction ks as [|k ks IH]; intros room cur.
  - exists [cur]. cbn. by rewrite !app_nil_r.
  - cbn [fmap list_fmap cut_pages]. destruct room.
    + destruct (IH (MaxKeys - 1)%nat [k]) as (kss & Hc & Hk).
      exists (cur :: kss). cbn [fmap list_fmap concat] in *.
      by rewrite Hc, Hk.
    + destruct (IH room (cur ++ [k])) as (kss & Hc & Hk).
      exists kss. rewrite fmap_app in Hc. cbn [fmap list_fmap] in *.
      by rewrite Hc, Hk, <- app_assoc.
Qed.

Lemma to_page_keys (ks : list string) :
  Contents (to_page (EKey <$> ks)) = nonempty (mkObjectEntry <$> ks).
Proof.
  cbn [to_page Contents]. f_equal.
  induction ks as [|k ks IH]; [done|].
  cbn [fmap list_fmap omap list_omap]. f_equal. apply IH.
Qed.

Lemma delete_objects_served (Bucket : string) (Objects : list string)
  (w : World) (objects : gmap string bytes) :
  faults (remote w) = [] →
  buckets (remote w) !! Bucket = Some objects →
  client_delete_objects Bucket Objects w
  = (Return tt,
     mkWorld (self w)
       (set_buckets (<[Bucket := foldr delete objects Objects]>
                       (buckets (remote w))) (remote w))
       (requests w ++ [delete_objects Bucket Objects]) (stdout w)).
Proof.
  intros Hfaults Hbucket. unfold client_delete_objects.
  rewrite remote_call_served by done.
  unfold serve_delete_objects, in_bucket. by rewrite Hbucket.
Qed.

(** The page loop of [deleteFolder] when every request is answered:
    the keys of the pages are gone, the other keys stay. *)
Lemma delete_pages_served (Bucket Prefix : string) (kss : list (list string))
  (token : option string) (w : World) (objects : gmap string bytes) :
  faults (remote w) = [] →
  buckets (remote w) !! Bucket = Some objects →
  ∃ w' objects',
    fetch_pages (list_objects Bucket Prefix) token
      (to_page <$> ((λ page : list string, EKey <$> page) <$> kss))
      (λ page (_ : unit),
         match Contents page with
         | Some contents => client_delete_objects Bucket (Key <$> contents)
         | None => mret tt
         end) tt w
    = (Return tt, w')
    ∧ self w' = self w
    ∧ stdout w' = stdout w
    ∧ faults (remote w') = []
    ∧ buckets (remote w') !! Bucket = Some objects'
    ∧ ∀ k, objects' !! k
           = if decide (k ∈ concat kss) then None else objects !! k.
Proof.
  revert token w objects. induction kss as [|ks kss IH];
    intros token w objects Hfaults Hbucket.
  - exists w, objects. cbn. by split_and!.
  - cbn [fmap list_fmap fetch_pages]. rewrite bind_run.
    rewrite remote_call_served by done. rewrite bind_run.
    rewrite to_page_keys. destruct ks as [|k0 ks].
    + cbn [fmap list_fmap nonempty].
      unfold mret at 1, Py_ret at 1. cbv beta iota.
      destruct (IH (last_listed (to_page (EKey <$> [])))
                  (mkWorld (self w) (remote w)
                     (requests w ++ [list_objects Bucket Prefix token])
                     (stdout w)) objects Hfaults Hbucket)
        as (w' & objects' & Hrun & Hself & Hout & Hf & Hb & Hk).
      exists w', objects'. cbn [fmap list_fmap] in Hrun. rewrite Hrun.
      split_and!; try done.
    + set (keys := k0 :: ks).
      assert (Hne : nonempty (mkObjectEntry <$> keys)
                    = Some (mkObjectEntry <$> keys)) by done.
      rewrite Hne.
      rewrite (delete_objects_served _ _ _ objects) by done.
      replace (Key <$> (mkObjectEntry <$> keys)) with keys
        by (rewrite <- list_fmap_compose; symmetry; apply list_fmap_id).
      cbn [self remote requests stdout].
      match goal with
      | |- context [fetch_pages _ ?t _ _ _ ?w1] =>
          destruct (IH t w1 (foldr delete objects keys))
            as (w' & objects' & Hrun & Hself & Hout & Hf & Hb & Hk)
      end.
      { done. }
      { cbn [remote set_buckets buckets]. apply lookup_insert_eq. }
      exists w', objects'. rewrite Hrun. split_and!; try done.
      intros k. rewrite Hk. cbn [concat].
      destruct (decide (k ∈ concat kss)) as [Hin|Hnin].
      * by rewrite decide_True by (apply elem_of_app; by right).
      * destruct (decide (k ∈ keys)) as [Hin'|Hnin'].
        -- rewrite decide_True by (apply elem_of_app; by left).
           by apply lookup_foldr_delete.
        -- rewrite decide_False by (rewrite elem_of_app; by intros [|]).
           by apply lookup_foldr_delete_not_elem_of.
Qed.

(** [deleteFolder] when every request is answered. *)
Lemma deleteFolder_served (folderPath : string) (w : World) :
  serving w →
  ∃ w',
    deleteFolder folderPath w = (Return tt, w')
    ∧ self w' = self w
    ∧ serving w'
    ∧ stdout w'
      = stdout w ++ ["Successfully deleted folder: " +:+ folderPath]
    ∧ ∀ k, object_at w' k
           = if String.prefix folderPath k then None else object_at w k.
Proof.
  intros [Hfaults [objects Hbucket]].
  destruct (cut_pages_keys MaxKeys []
              (filter (λ k, String.prefix folderPath k = true)
                 (sorted_keys objects))) as (kss & Hpages & Hkeys).
  cbn [fmap list_fmap app] in Hpages, Hkeys.
  destruct (delete_pages_served (bucket_name (self w)) folderPath kss None w
              objects Hfaults Hbucket)
    as (w' & objects' & Hrun & Hself & Hout & Hf & Hb & Hk).
  eexists. split.
  - unfold deleteFolder. rewrite bind_run. cbn [get_self].
    rewrite try_run, bind_run. unfold paginate_list_objects, for_page_in.
    rewrite Hbucket. unfold pages_of. rewrite listing_keys, Hpages, Hrun.
    cbn [print]. reflexivity.
  - unfold serving, object_at. cbn [self remote stdout].
    rewrite Hself, Hb, Hbucket, Hout. cbn [mbind option_bind].
    split_and!; try done. intros k. rewrite Hk, Hkeys.
    destruct (String.prefix folderPath k) eqn:Hp.
    + destruct (decide _) as [|Hnin]; [done|].
      destruct (objects !! k) eqn:Hl; [|done]. exfalso. apply Hnin.
      apply list_elem_of_filter. split; [done|].
      apply sorted_keys_elem. by rewrite Hl.
    + rewrite decide_False; [done|].
      intros [Hp' _]%list_elem_of_filter. congruence.
Qed.

(** Reading a key that is not stored. *)
Lemma get_object_missing (Key : string) (w : World) :
  faults (remote w) = [] →
  object_at w Key = None →
  ∃ e,
    client_get_object (bucket_name (self w)) Key w
    = (Raise (ClientError e),
       mkWorld (self w) (remote w)
         (requests w ++ [get_object (bucket_name (self w)) Key]) (stdout w))
    ∧ operation_name e = "GetObject".
Proof.
  intros Hfaults Hobj. unfold client_get_object.
  rewrite remote_call_served by done. unfold serve_get_object, in_bucket.
  unfold object_at in Hobj.
  destruct (buckets (remote w) !! bucket_name (self w)) as [objects|];
    cbn [mbind option_bind] in Hobj; [rewrite Hobj|]; by eexists.
Qed.

(** X4. readFile and streamFileContent on a key the bucket does not hold
    yield no chunk, print their own error line and leave the service as
    it was: the refusal of get_object is not passed on to the caller. *)
Theorem reading_a_missing_key (filePath : string) (chunkSize : Z) (w : World) :
  faults (remote w) = [] →
  object_at w filePath = None →
  (readFile filePath chunkSize w).1 = Return []
  ∧ (streamFileContent filePath chunkSize w).1 = Return []
  ∧ (∃ e, stdout (readFile filePath chunkSize w).2
          = stdout w ++ ["An error occurred while reading from the file: "
                           +:+ str_ClientError e])
  ∧ (∃ e, stdout (streamFileContent filePath chunkSize w).2
          = stdout w
              ++ ["An error occurred while streaming the file content: "
                    +:+ str_ClientError e])
  ∧ remote (readFile filePath chunkSize w).2 = remote w
  ∧ remote (streamFileContent filePath chunkSize w).2 = remote w.
Proof.
  intros Hfaults Hobj.
  destruct (get_object_missing filePath w Hfaults Hobj) as (e & Hget & _).
  unfold readFile, streamFileContent. rewrite !bind_run. cbn [get_self].
  rewrite !try_run, !bind_run, Hget. cbn [print fst snd stdout remote].
  split_and!; try done; by exists e.
Qed.

Lemma reading_a_missing_key_witness :
  faults (remote (demo_world ∅ [])) = []
  ∧ object_at (demo_world ∅ []) "nothing.txt" = None
  ∧ (readFile "nothing.txt" 8 (demo_world ∅ [])).1 = Return [].
Proof.
  assert (H1 : faults (remote (demo_world ∅ [])) = []) by reflexivity.
  assert (H2 : object_at (demo_world ∅ []) "nothing.txt" = None).
  { unfold object_at. cbn [demo_world remote self buckets].
    rewrite lookup_singleton_eq. apply lookup_empty. }
  split; [exact H1|]. split; [exact H2|].
  apply (reading_a_missing_key "nothing.txt" 8 (demo_world ∅ []) H1 H2).
Defined.

(** X5. deleteFile(filePath) on a service that answers returns, prints its
    success line whether or not the key was stored, and leaves no object
    under the key: fileExists returns False, readFile yields nothing,
    and every other key holds what it held. *)
Theorem deleteFile_then_gone (filePath : string) (w : World) :
  serving w →
  let w' := (deleteFile filePath w).2 in
  (deleteFile filePath w).1 = Return tt
  ∧ object_at w' filePath = None
  ∧ (fileExists filePath w').1 = Return false
  ∧ (∀ chunkSize, (readFile filePath chunkSize w').1 = Return [])
  ∧ (∀ Key, Key ≠ filePath → object_at w' Key = object_at w Key)
  ∧ last (stdout w') = Some ("Successfully deleted file: " +:+ filePath).
Proof.
  intros Hs. cbv zeta.
  pose proof (keeps_run (DeleteFile filePath) w) as [_ Hkeep].
  destruct (deleteFile_served filePath w Hs)
    as (w' & Hrun & [Hfaults _] & Hout & _ & Hobj).
  unfold run, returning in Hkeep. rewrite bind_run, Hrun in Hkeep.
  cbn [snd] in Hkeep. rewrite Hrun. cbn [fst snd]. split_and!.
  - done.
  - done.
  - rewrite fileExists_served, Hobj by done.
    by rewrite bool_decide_eq_false_2 by by intros [].
  - intros c.
    destruct (get_object_missing filePath w' Hfaults Hobj) as (e & Hget & _).
    unfold readFile. rewrite bind_run. cbn [get_self].
    by rewrite try_run, bind_run, Hget.
  - intros Key Hne. apply Hkeep. cbn [may_touch].
    by apply String.eqb_neq.
  - rewrite Hout. apply last_snoc.
Qed.

Lemma deleteFile_then_gone_witness :
  serving (demo_world docs_folder [])
  ∧ (fileExists "docs/a.txt"
       (deleteFile "docs/a.txt" (demo_world docs_folder [])).2).1
    = Return false.
Proof.
  assert (H : serving (demo_world docs_folder [])).
  { split; [reflexivity|]. eexists. apply lookup_singleton_eq. }
  split; [exact H|].
  apply (deleteFile_then_gone "docs/a.txt" (demo_world docs_folder []) H).
Defined.

(** X6. deleteFolder(folderPath) on a service that answers removes exactly
    the keys that start with folderPath, over all the pages of the
    listing, and keeps the others; afterwards folderExists(folderPath)
    returns False and listFolderContents(folderPath) raises its [does
    not exist] exception. *)
Theorem deleteFolder_removes_the_prefix (folderPath : string) (w : World) :
  serving w →
  let w' := (deleteFolder folderPath w).2 in
  (deleteFolder folderPath w).1 = Return tt
  ∧ (∀ k, object_at w' k
          = if String.prefix folderPath k then None else object_at w k)
  ∧ (folderExists folderPath w').1 = Return false
  ∧ (listFolderContents folderPath w').1
    = Raise (Exception ("Folder " +:+ folderPath +:+ " does not exist")).
Proof.
  intros Hs. cbv zeta.
  destruct (deleteFolder_served folderPath w Hs)
    as (w' & -> & _ & [Hfaults _] & _ & Hobj).
  cbn [fst snd].
  assert (He : (folderExists folderPath w').1 = Return false).
  { rewrite folderExists_served, Hobj, prefix_append by done.
    by rewrite bool_decide_eq_false_2 by by intros []. }
  split_and!; try done. by apply listFolderContents_missing.
Qed.

Lemma deleteFolder_removes_the_prefix_witness :
  serving (demo_world docs_folder [])
  ∧ (listFolderContents "docs"
       (deleteFolder "docs" (demo_world docs_folder [])).2).1
    = Raise (Exception ("Folder " +:+ "docs" +:+ " does not exist")).
Proof.
  assert (H : serving (demo_world docs_folder [])).
  { split; [reflexivity|]. eexists. apply lookup_singleton_eq. }
  split; [exact H|].
  apply (deleteFolder_removes_the_prefix "docs" (demo_world docs_folder []) H).
Defined.

(** X7. deleteFolder(folderPath) when no stored key starts with folderPath
    sends the one listing request and no delete request, leaves the
    service unchanged and still prints its success line. *)
Theorem deleteFolder_nothing_to_delete (folderPath : string) (w : World) :
  serving w →
  (∀ k, String.prefix folderPath k = true → object_at w k = None) →
  deleteFolder folderPath w
  = (Return tt,
     mkWorld (self w) (remote w)
       (requests w ++ [list_objects (bucket_name (self w)) folderPath None])
       (stdout w ++ ["Successfully deleted folder: " +:+ folderPath])).
Proof.
  intros [Hfaults [objects Hbucket]] Hnone.
  assert (Hf : filter (λ k, String.prefix folderPath k = true)
                 (sorted_keys objects) = []).
  { destruct (filter _ _) as [|k ks] eqn:Hfil; [done|]. exfalso.
    assert (Hk : k ∈ filter (λ k, String.prefix folderPath k = true)
                   (sorted_keys objects)) by (rewrite Hfil; by left).
    apply list_elem_of_filter in Hk as [Hp [v Hv]%sorted_keys_elem].
    specialize (Hnone k Hp). unfold object_at in Hnone.
    rewrite Hbucket in Hnone. cbn in Hnone. congruence. }
  unfold deleteFolder. rewrite bind_run. cbn [get_self].
  rewrite try_run, bind_run. unfold paginate_list_objects, for_page_in.
  rewrite Hbucket. unfold pages_of. rewrite listing_keys, Hf.
  cbn [fmap list_fmap cut_pages fetch_pages]. rewrite bind_run.
  rewrite remote_call_served by done. reflexivity.
Qed.

Lemma deleteFolder_nothing_to_delete_witness :
  serving (demo_world ∅ [])
  ∧ requests (deleteFolder "docs" (demo_world ∅ [])).2
    = [list_objects "demo" "docs" None].
Proof.
  assert (H : serving (demo_world ∅ [])).
  { split; [reflexivity|]. eexists. apply lookup_singleton_eq. }
  split; [exact H|].
  rewrite (deleteFolder_nothing_to_delete "docs" (demo_world ∅ []) H).
  - reflexivity.
  - intros k _. unfold object_at. cbn [demo_world remote self buckets].
    rewrite lookup_singleton_eq. apply lookup_empty.
Defined.

(** ** What a page loop accumulates *)

Lemma fetch_pages_invariant {A} (I : A → Prop)
  (request : option string → Request) (token : option string)
  (pages : list Page) (body : Page → A → Py A) (acc : A) (w : World) :
  I acc →
  (∀ page a w0 a', page ∈ pages → I a → (body page a w0).1 = Return a' →
     I a') →
  ∀ a', (fetch_pages request token pages body acc w).1 = Return a' → I a'.
Proof.
  revert token acc w. induction pages as [|page pages IH];
    intros token acc w Hacc Hbody a'.
  - by intros [= <-].
  - cbn [fetch_pages]. rewrite bind_run.
    destruct (remote_call _ _ w) as [[[]|e] w1]; [|done].
    rewrite bind_run.
    destruct (body page acc w1) as [[acc1|e] w2] eqn:Hb; [|done].
    apply IH.
    + eapply (Hbody page acc w1); [by left|done|by rewrite Hb].
    + intros p a w0 a0 Hp. apply Hbody. by right.
Qed.

Lemma foldl_append_unless {X} (Q : string → Prop) (f : X → string)
  (skip : string) (xs : list X) (acc : list string) :
  Forall Q acc →
  Forall (λ x, f x ≠ skip → Q (f x)) xs →
  Forall Q (foldl (λ acc x, if decide (f x ≠ skip) then acc ++ [f x] else acc)
              acc xs).
Proof.
  intros Hacc Hxs. revert acc Hacc.
  induction Hxs as [|x xs Hx _ IH]; intros acc Hacc; [done|].
  cbn [foldl]. apply IH. destruct (decide (f x ≠ skip)); [|done].
  apply Forall_app. split; [done|]. apply Forall_singleton. by apply Hx.
Qed.

(** The names [listFolderContents] collects from a page, given that
    those of the page start with the prefix of the listing. *)
Lemma listFolderContents_page_names (folderPath : string) (page : Page)
  (contents : list string) (w : World) (contents' : list string) :
  let inside name :=
    String.prefix (folderPath +:+ "/") name = true
    ∧ name ≠ folderPath +:+ "/" in
  (∀ objects, Contents page = Some objects →
     Forall (λ o, String.prefix (folderPath +:+ "/") (Key o) = true) objects) →
  (∀ prefixes, CommonPrefixes page = Some prefixes →
     Forall (λ p, String.prefix (folderPath +:+ "/") (Prefix p) = true)
       prefixes) →
  Forall inside contents →
  (listFolderContents_page folderPath page contents w).1 = Return contents' →
  Forall inside contents'.
Proof.
  cbv zeta. intros Hc Hp Hin. unfold listFolderContents_page. cbv zeta.
  intros [= <-].
  destruct (CommonPrefixes page) as [prefixes|].
  - apply (foldl_append_unless _ Prefix).
    + destruct (Contents page) as [objects|]; [|done].
      apply (foldl_append_unless _ Key); [done|].
      eapply Forall_impl; [by apply Hc|]. by intros o Ho Hne.
    + eapply Forall_impl; [by apply Hp|]. by intros p Hpre Hne.
  - destruct (Contents page) as [objects|]; [|done].
    apply (foldl_append_unless _ Key); [done|].
    eapply Forall_impl; [by apply Hc|]. by intros o Ho Hne.
Qed.

(** X8. Whatever the service holds and answers, every name
    listFolderContents(folderPath) returns starts with folderPath + [/]
    and is not folderPath + [/] itself. *)
Theorem listFolderContents_names (folderPath : string) (w : World)
  (names : list string) :
  (listFolderContents folderPath w).1 = Return names →
  Forall (λ name, String.prefix (folderPath +:+ "/") name = true
                  ∧ name ≠ folderPath +:+ "/") names.
Proof.
  rewrite listFolderContents_run. cbv zeta.
  destruct (folderExists _ _) as [[[]|e] w2]; [|done|done].
  rewrite try_run. unfold paginate_list_objects_v2, for_page_in.
  destruct (buckets (remote w2) !! bucket_name (self w2)) as [objects|].
  - pose proof (fetch_pages_invariant
      (Forall (λ name, String.prefix (folderPath +:+ "/") name = true
                       ∧ name ≠ folderPath +:+ "/"))
      (list_objects_v2 (bucket_name (self w2)) (folderPath +:+ "/") "/") None
      (pages_of objects (folderPath +:+ "/") (Some "/"))
      (listFolderContents_page folderPath) [] w2) as Hinv.
    destruct (fetch_pages _ _ _ _ _ w2) as [[contents|[]] w3];
      cbn [fst print] in *; try done.
    + intros [= <-]. apply Hinv; [done| |done].
      intros page a w0 a' Hpage Ha. apply listFolderContents_page_names.
      * intros objs Hobjs. eapply Forall_impl;
          [by eapply page_Contents|]. by intros o [H _].
      * intros prefixes Hpre. by eapply page_CommonPrefixes.
      * done.
    + by intros [= <-].
  - rewrite bind_run.
    destruct (remote_call _ _ w2) as [[[]|[]] w3]; cbn [fst print];
      try done; by intros [= <-].
Qed.

Lemma listFolderContents_names_witness :
  (listFolderContents "docs" (demo_world docs_folder [])).1
  = Return ["docs/a.txt"]
  ∧ Forall (λ name, String.prefix ("docs" +:+ "/") name = true
                    ∧ name ≠ "docs" +:+ "/") ["docs/a.txt"].
Proof.
  assert (H : (listFolderContents "docs" (demo_world docs_folder [])).1
              = Return ["docs/a.txt"]) by (vm_compute; reflexivity).
  split; [exact H|].
  apply (listFolderContents_names "docs" (demo_world docs_folder []) _ H).
Defined.

(** ** Sizes of the chunks *)

Lemma chunks_of_nil (chunkSize : Z) : chunks_of [] chunkSize = [].
Proof. by rewrite chunks_of_unfold, read_at_end. Qed.

Lemma chunks_of_sizes (d : bytes) (c : Z) :
  1 ≤ c →
  Z.of_nat (length (chunks_of d c)) = (Z.of_nat (length d) + c - 1) / c
  ∧ ∀ (i : nat) chunk,
      chunks_of d c !! i = Some chunk →
      Z.of_nat (length chunk)
      = Z.min c (Z.of_nat (length d) - Z.of_nat i * c).
Proof.
  intros Hc. remember (length d) as n eqn:Hn. revert d Hn.
  induction (lt_wf n) as [n _ IH]. intros d ->.
  destruct d as [|b d'].
  - rewrite chunks_of_nil. split; [|done].
    cbn [length]. symmetry. apply Z.div_small. lia.
  - set (d := b :: d') in *.
    assert (Hpos : (0 < length d)%nat) by (cbn; lia).
    rewrite chunks_of_step by lia.
    set (m := Z.to_nat c).
    assert (Hm : Z.of_nat m = c) by (unfold m; lia).
    destruct (IH (length (drop m d))) with (d := drop m d) as [Hcount Hsize];
      [rewrite length_drop; lia|done|].
    rewrite length_drop in Hcount, Hsize.
    split.
    + cbn [length]. rewrite Nat2Z.inj_succ, Hcount.
      destruct (Z_le_gt_dec c (Z.of_nat (length d))) as [Hle|Hgt].
      * replace (Z.of_nat (length d - m) + c - 1)
          with (Z.of_nat (length d) + c - 1 + (-1) * c) by lia.
        rewrite Z.div_add by lia. lia.
      * replace (Z.of_nat (length d - m)) with 0 by lia.
        rewrite (Z.div_small (0 + c - 1)) by lia.
        assert (Hq : (Z.of_nat (length d) + c - 1) / c = 1).
        { symmetry.
          apply (Z.div_unique_pos _ _ 1 (Z.of_nat (length d) - 1)); lia. }
        lia.
    + intros [|i] chunk.
      * intros [= <-]. rewrite length_take. lia.
      * cbn [lookup list_lookup]. intros H.
        destruct (decide (length d ≤ m)%nat) as [Hshort|Hlong].
        -- by rewrite drop_ge, chunks_of_nil in H.
        -- rewrite (Hsize _ _ H). lia.
Qed.

(** X9. For a stored object of n bytes and a chunk size c of at least 1,
    readFile and streamFileContent yield the same ceil(n / c) chunks;
    chunk i has min(c, n - i*c) bytes and the chunks concatenate to the
    object. With chunk size 0 they yield nothing. *)
Theorem streamed_chunks (filePath : string) (c : Z) (w : World)
  (content : bytes) :
  1 ≤ c →
  faults (remote w) = [] →
  object_at w filePath = Some content →
  ∃ chunks,
    (readFile filePath c w).1 = Return chunks
    ∧ (streamFileContent filePath c w).1 = Return chunks
    ∧ concat chunks = content
    ∧ Z.of_nat (length chunks) = (Z.of_nat (length content) + c - 1) / c
    ∧ (∀ (i : nat) chunk,
         chunks !! i = Some chunk →
         Z.of_nat (length chunk)
         = Z.min c (Z.of_nat (length content) - Z.of_nat i * c))
    ∧ (readFile filePath 0 w).1 = Return []
    ∧ (streamFileContent filePath 0 w).1 = Return [].
Proof.
  intros Hc Hfaults Hobj. exists (chunks_of content c).
  destruct (chunks_of_sizes content c Hc) as [Hcount Hsize].
  assert (H0 : chunks_of content 0 = []).
  { rewrite chunks_of_unfold. unfold read. cbn [Z.ltb Z.compare fst snd].
    by rewrite take_0. }
  split_and!.
  - by apply readFile_served.
  - by apply streamFileContent_served.
  - by apply chunks_of_concat.
  - done.
  - done.
  - by rewrite (readFile_served _ _ _ content), H0.
  - by rewrite (streamFileContent_served _ _ _ content), H0.
Qed.

Lemma streamed_chunks_witness :
  1 ≤ 2
  ∧ faults (remote (demo_world docs_folder [])) = []
  ∧ object_at (demo_world docs_folder []) "docs/a.txt" = Some hello
  ∧ ∃ chunks,
      (readFile "docs/a.txt" 2 (demo_world docs_folder [])).1 = Return chunks
      ∧ Z.of_nat (length chunks) = (Z.of_nat (length hello) + 2 - 1) / 2.
Proof.
  assert (H1 : 1 ≤ 2) by lia.
  assert (H2 : faults (remote (demo_world docs_folder [])) = [])
    by reflexivity.
  assert (H3 : object_at (demo_world docs_folder []) "docs/a.txt"
               = Some hello) by (vm_compute; reflexivity).
  split; [exact H1|]. split; [exact H2|]. split; [exact H3|].
  destruct (streamed_chunks "docs/a.txt" 2 (demo_world docs_folder []) hello
              H1 H2 H3) as (chunks & Hr & _ & _ & Hn & _).
  by exists chunks.
Defined.

(** ** Chunked uploads, whatever the service answers *)





(** X11. Whatever the service answers, an operation changes no object of the
    configured bucket outside its own keys: folderPath + [/] for
    createFolder, filePath for uploadFile, updateFile, deleteFile and
    uploadFileChunked, the keys starting with folderPath for
    deleteFolder, and no key at all for the other operations. *)
Theorem operations_touch_only_their_keys (op : Operation) (w : World)
  (k : string) :
  may_touch op k = false →
  object_at (run op w).2 k = object_at w k.
Proof. intros Hk. by apply (keeps_run op w). Qed.

Lemma operations_touch_only_their_keys_witness :
  may_touch (DeleteFolder "docs") "a/x.txt" = false
  ∧ object_at (run (DeleteFolder "docs")
                 (demo_world folder_and_sibling [])).2 "a/x.txt"
    = object_at (demo_world folder_and_sibling []) "a/x.txt".
Proof.
  assert (H : may_touch (DeleteFolder "docs") "a/x.txt" = false)
    by reflexivity.
  split; [exact H|].
  apply (operations_touch_only_their_keys (DeleteFolder "docs")
           (demo_world folder_and_sibling []) "a/x.txt" H).
Defined.

(** ** Buckets *)

Lemma createBucket_served (w : World) :
  faults (remote w) = [] →
  createBucket w
  = match buckets (remote w) !! bucket_name (self w) with
    | Some _ =>
        (Return tt,
         mkWorld (self w) (remote w)
           (requests w ++ [create_bucket (bucket_name (self w))])
           (stdout w
              ++ ["Bucket '" +:+ bucket_name (self w) +:+ "' already exists."]))
    | None =>
        (Return tt,
         mkWorld (self w)
           (set_buckets (<[bucket_name (self w) := ∅]> (buckets (remote w)))
              (remote w))
           (requests w ++ [create_bucket (bucket_name (self w))])
           (stdout w
              ++ ["Successfully created bucket: " +:+ bucket_name (self w)]))
    end.
Proof.
  intros Hfaults. unfold createBucket. rewrite bind_run. cbn [get_self].
  rewrite try_run, bind_run. unfold client_create_bucket.
  rewrite remote_call_served by done. unfold serve_create_bucket.
  by destruct (buckets (remote w) !! bucket_name (self w)).
Qed.

Lemma connectToBucket_served (bucketName : option string) (w : World) :
  faults (remote w) = [] →
  let target := default (bucket_name (self w)) bucketName in
  connectToBucket bucketName w
  = match buckets (remote w) !! target with
    | Some _ =>
        (Return (Some target),
         mkWorld (self w) (remote w) (requests w ++ [head_bucket target])
           (stdout w ++ ["Successfully connected to bucket: " +:+ target]))
    | None =>
        (Return None,
         mkWorld (self w) (remote w) (requests w ++ [head_bucket target])
           (stdout w ++ ["Bucket '" +:+ target +:+ "' does not exist."]))
    end.
Proof.
  intros Hfaults. cbv zeta. unfold connectToBucket. rewrite bind_run.
  cbn [get_self]. cbv zeta.
  replace (match bucketName with
           | Some b => b
           | None => bucket_name (self w)
           end) with (default (bucket_name (self w)) bucketName)
    by by destruct bucketName.
  rewrite try_run, bind_run. unfold client_head_bucket.
  rewrite remote_call_served by done. unfold serve_head_bucket.
  by destruct (buckets (remote w) !! default (bucket_name (self w)) bucketName).
Qed.

(** X12. createBucket on a service that answers returns and leaves the
    configured bucket in existence with the objects it had; a second
    createBucket changes nothing on the service and prints that the
    bucket already exists, and connectToBucket() then returns the name
    of the bucket. *)
Theorem createBucket_twice (w : World) :
  faults (remote w) = [] →
  let w1 := (createBucket w).2 in
  let w2 := (createBucket w1).2 in
  (createBucket w).1 = Return tt
  ∧ is_Some (buckets (remote w1) !! bucket_name (self w))
  ∧ (∀ k, object_at w1 k = object_at w k)
  ∧ (createBucket w1).1 = Return tt
  ∧ remote w2 = remote w1
  ∧ last (stdout w2)
    = Some ("Bucket '" +:+ bucket_name (self w) +:+ "' already exists.")
  ∧ (connectToBucket None w1).1 = Return (Some (bucket_name (self w))).
Proof.
  intros Hfaults. cbv zeta.
  assert (H1 : ∃ w1 objects,
            createBucket w = (Return tt, w1)
            ∧ self w1 = self w ∧ faults (remote w1) = []
            ∧ buckets (remote w1) !! bucket_name (self w) = Some objects
            ∧ ∀ k, object_at w1 k = object_at w k).
  { rewrite createBucket_served by done. unfold object_at.
    destruct (buckets (remote w) !! bucket_name (self w)) as [objects|] eqn:Hb.
    - eexists _, objects. split; [done|]. cbn [self remote].
      by rewrite Hb.
    - eexists _, ∅. split; [done|].
      cbn [self remote set_buckets buckets faults].
      split_and!; try done; [apply lookup_insert_eq|].
      intros k. by rewrite lookup_insert_eq. }
  destruct H1 as (w1 & objects & -> & Hself & Hf1 & Hb1 & Hobj).
  cbn [fst snd].
  rewrite createBucket_served, connectToBucket_served by done.
  cbn [default]. rewrite Hself, Hb1. cbn [fst snd remote stdout].
  split_and!; try done. apply last_snoc.
Qed.

Lemma createBucket_twice_witness :
  faults (remote (demo_world ∅ [])) = []
  ∧ (connectToBucket None (createBucket (demo_world ∅ [])).2).1
    = Return (Some "demo").
Proof.
  assert (H : faults (remote (demo_world ∅ [])) = []) by reflexivity.
  split; [exact H|]. apply (createBucket_twice (demo_world ∅ []) H).
Defined.



(** ** The stand-alone start of a multipart upload *)



(** ** File names, again *)

Lemma after_last_slash_idem (path : string) :
  after_last_slash (after_last_slash path) = after_last_slash path.
Proof. apply after_last_slash_no_slash, after_last_slash_clean. Qed.

(** X15. getActualFileNames always returns; its result holds no [/], is a
    fixed point of getActualFileNames, and the result on a concatenation
    of two lists is the concatenation of the results. *)
Theorem getActualFileNames_twice (filePaths : list string) (w : World) :
  ∃ names,
    (getActualFileNames filePaths w).1 = Return names
    ∧ (getActualFileNames names w).1 = Return names
    ∧ Forall (λ name, has_slash name = false) names
    ∧ ∀ more, (getActualFileNames (filePaths ++ more) w).1
              = Return (names ++ (after_last_slash <$> more)).
Proof.
  exists (after_last_slash <$> filePaths).
  unfold getActualFileNames, lift. rewrite !getActualFileNames_loop_map.
  cbn [fst app]. split_and!.
  - done.
  - f_equal. rewrite <- list_fmap_compose. apply list_fmap_ext.
    intros i p _. apply after_last_slash_idem.
  - apply Forall_fmap, Forall_forall. intros p _.
    apply after_last_slash_clean.
  - intros more. by rewrite getActualFileNames_loop_map, fmap_app.
Qed.

(** ** Listing folders when the request is refused *)

(** X16. listFolders(prefix) when the listing request is refused returns the
    empty list, after that single request and one printed error line,
    with nothing changed on the service but the refusal consumed. *)
Theorem listFolders_refused (prefix : string) (w : World)
  (e : string * string) (script : list (option (string * string))) :
  faults (remote w) = Some e :: script →
  listFolders prefix w
  = (Return [],
     mkWorld (self w) (set_faults script (remote w))
       (requests w
          ++ [list_objects_v2 (bucket_name (self w)) prefix "/" None])
       (stdout w
          ++ ["An error occurred while listing folders: "
                +:+ str_ClientError (mkError e.1 e.2 "ListObjectsV2")])).
Proof.
  intros Hfaults. unfold listFolders. rewrite bind_run. cbn [get_self].
  rewrite try_run. unfold paginate_list_objects_v2, for_page_in.
  destruct (buckets (remote w) !! bucket_name (self w)) as [objects|].
  - destruct (pages_of_cons objects prefix (Some "/")) as (page & pages & ->).
    cbn [fetch_pages]. rewrite bind_run. unfold remote_call.
    by rewrite Hfaults.
  - rewrite bind_run. unfold remote_call. by rewrite Hfaults.
Qed.

Lemma listFolders_refused_witness :
  faults (remote (demo_world nested_keys [Some internal_error]))
  = Some internal_error :: []
  ∧ (listFolders "a/" (demo_world nested_keys [Some internal_error])).1
    = Return [].
Proof.
  assert (H : faults (remote (demo_world nested_keys [Some internal_error]))
              = Some internal_error :: []) by reflexivity.
  split; [exact H|].
  by rewrite (listFolders_refused "a/"
                (demo_world nested_keys [Some internal_error])
                internal_error [] H).
Defined.

(** ** Chunked uploads: the parts, and the edges *)

Lemma uploadFileChunked_trace (filePath : string) (d : bytes) (c : Z)
  (w : World) :
  serving w →
  requests (uploadFileChunked filePath (FileLike d) c w).2
  = requests w
      ++ [create_multipart_upload (bucket_name (self w)) filePath]
      ++ part_requests (bucket_name (self w)) filePath
           ("upload-" +:+ pretty (upload_counter (remote w))) 1
           (chunks_of d c)
      ++ [complete_multipart_upload (bucket_name (self w)) filePath
            (part_list (etag_of (remote w)) 1 (chunks_of d c))
            ("upload-" +:+ pretty (upload_counter (remote w)))].
Proof.
  intros [Hfaults [objects Hbucket]]. destruct w as [inst s reqs out].
  cbn [self remote requests] in *.
  by destruct (uploadFileChunked_served filePath d c inst s reqs out objects
                 Hfaults Hbucket) as (s' & -> & _).
Qed.



(** X18. uploadFileChunked of a readable source that is empty, or with chunk
    size 0, on a service that answers submits no part: it sends
    create_multipart_upload and then complete_multipart_upload with an
    empty list of parts. *)
Theorem uploadFileChunked_without_parts (filePath : string) (d : bytes)
  (c : Z) (w : World) :
  serving w →
  d = [] ∨ c = 0 →
  requests (uploadFileChunked filePath (FileLike d) c w).2
  = requests w
      ++ [create_multipart_upload (bucket_name (self w)) filePath;
          complete_multipart_upload (bucket_name (self w)) filePath []
            ("upload-" +:+ pretty (upload_counter (remote w)))].
Proof.
  intros Hs Hempty. rewrite uploadFileChunked_trace by done.
  assert (H : chunks_of d c = []).
  { destruct Hempty as [->| ->]; [apply chunks_of_nil|].
    rewrite chunks_of_unfold. unfold read. cbn [Z.ltb Z.compare fst snd].
    by rewrite take_0. }
  by rewrite H.
Qed.

Lemma uploadFileChunked_without_parts_witness :
  serving (demo_world ∅ []) ∧ (hello = [] ∨ 0 = 0)
  ∧ requests (uploadFileChunked "greeting.txt" (FileLike hello) 0
                (demo_world ∅ [])).2
    = [create_multipart_upload "demo" "greeting.txt";
       complete_multipart_upload "demo" "greeting.txt" [] "upload-0"].
Proof.
  assert (H1 : serving (demo_world ∅ [])).
  { split; [reflexivity|]. eexists. apply lookup_singleton_eq. }
  assert (H2 : hello = [] ∨ 0 = 0) by (right; reflexivity).
  split; [exact H1|]. split; [exact H2|].
  apply (uploadFileChunked_without_parts "greeting.txt" hello 0
           (demo_world ∅ []) H1 H2).
Defined.

Lemma remote_call_answered {A} (req : Request) (serve : Spaces → Reply A)
  (w : World) (script : list (option (string * string))) :
  faults (remote w) = None :: script →
  remote_call req serve w
  = match serve (set_faults script (remote w)) with
    | inl e =>
        (Raise (ClientError (mkError e.1 e.2 (request_name req))),
         mkWorld (self w) (set_faults script (remote w))
           (requests w ++ [req]) (stdout w))
    | inr (a, s') =>
        (Return a, mkWorld (self w) s' (requests w ++ [req]) (stdout w))
    end.
Proof. intros H. unfold remote_call. by rewrite H. Qed.

Lemma remote_call_refused {A} (req : Request) (serve : Spaces → Reply A)
  (w : World) (e : string * string)
  (script : list (option (string * string))) :
  faults (remote w) = Some e :: script →
  remote_call req serve w
  = (Raise (ClientError (mkError e.1 e.2 (request_name req))),
     mkWorld (self w) (set_faults script (remote w))
       (requests w ++ [req]) (stdout w)).
Proof. intros H. unfold remote_call. by rewrite H. Qed.

(** X19. When the session is opened and the first part is refused,
    uploadFileChunked returns after these two requests and one printed
    error line: it sends no abort request, the session stays open on the
    service with no part, and no object is written. *)
Theorem uploadFileChunked_refused_part (filePath : string) (d : bytes)
  (c : Z) (w : World) (e : string * string)
  (script : list (option (string * string))) (objects : gmap string bytes) :
  1 ≤ c → d ≠ [] →
  faults (remote w) = None :: Some e :: script →
  buckets (remote w) !! bucket_name (self w) = Some objects →
  let r := uploadFileChunked filePath (FileLike d) c w in
  let UploadId := "upload-" +:+ pretty (upload_counter (remote w)) in
  r.1 = Return tt
  ∧ requests r.2
    = requests w
        ++ [create_multipart_upload (bucket_name (self w)) filePath;
            upload_part (take (Z.to_nat c) d) (bucket_name (self w)) filePath
              1 UploadId]
  ∧ stdout r.2
    = stdout w
        ++ ["An error occurred while uploading the file: "
              +:+ str_ClientError (mkError e.1 e.2 "UploadPart")]
  ∧ uploads (remote r.2) !! UploadId
    = Some (mkUploadSession (bucket_name (self w)) filePath ∅)
  ∧ buckets (remote r.2) = buckets (remote w)
  ∧ faults (remote r.2) = script.
Proof.
  intros Hc Hd Hfaults Hbucket. cbv zeta.
  assert (Hread : read d c = (take (Z.to_nat c) d, drop (Z.to_nat c) d)).
  { unfold read. by replace (c <? 0) with false by lia. }
  assert (Hne : is_empty (take (Z.to_nat c) d) = false).
  { apply is_empty_length. rewrite length_take.
    destruct d; [done|]. cbn [length]. lia. }
  assert (Hrun : ∃ w',
            uploadFileChunked filePath (FileLike d) c w = (Return tt, w')
            ∧ w' = mkWorld (self w)
                     (set_uploads
                        (<["upload-" +:+ pretty (upload_counter (remote w)) :=
                             mkUploadSession (bucket_name (self w)) filePath
                               ∅]> (uploads (remote w)))
                        (S (upload_counter (remote w)))
                        (set_faults script (remote w)))
                     ((requests w
                         ++ [create_multipart_upload (bucket_name (self w))
                               filePath])
                        ++ [upload_part (take (Z.to_nat c) d)
                              (bucket_name (self w)) filePath 1
                              ("upload-"
                                 +:+ pretty (upload_counter (remote w)))])
                     (stdout w
                        ++ ["An error occurred while uploading the file: "
                              +:+ str_ClientError
                                    (mkError e.1 e.2 "UploadPart")])).
  { eexists. split; [|reflexivity].
    unfold uploadFileChunked. rewrite bind_run. cbn [get_self].
    rewrite try_run, bind_run. cbv beta iota. rewrite bind_run.
    unfold client_create_multipart_upload.
    rewrite (remote_call_answered _ _ _ (Some e :: script)) by done.
    unfold serve_create_multipart_upload, in_bucket.
    cbn [set_faults buckets upload_counter uploads]. rewrite Hbucket.
    cbv zeta. rewrite bind_run. cbn [upload_parts]. rewrite Hread, Hne.
    rewrite bind_run. cbn [get_self]. rewrite bind_run.
    unfold client_upload_part.
    rewrite (remote_call_refused _ _ _ e script) by done.
    reflexivity. }
  destruct Hrun as (w' & -> & ->). cbn [fst snd requests stdout remote
    set_uploads set_faults uploads buckets faults].
  rewrite <- app_assoc. split_and!; try done. apply lookup_insert_eq.
Qed.

Lemma uploadFileChunked_refused_part_witness :
  1 ≤ 2 ∧ hello ≠ []
  ∧ requests
      (uploadFileChunked "greeting.txt" (FileLike hello) 2
         (demo_world ∅ [None; Some internal_error])).2
    = [create_multipart_upload "demo" "greeting.txt";
       upload_part (take (Z.to_nat 2) hello) "demo" "greeting.txt" 1
         "upload-0"].
Proof.
  assert (H1 : 1 ≤ 2) by lia.
  assert (H2 : hello ≠ []) by discriminate.
  split; [exact H1|]. split; [exact H2|].
  apply (uploadFileChunked_refused_part "greeting.txt" hello 2
           (demo_world ∅ [None; Some internal_error]) internal_error [] ∅
           H1 H2 eq_refl).
  apply lookup_singleton_eq.
Defined.

(** ** Methods that differ in what they print *)

(** X20. Whatever the service answers, these pairs of calls have the same
    outcome, send the same requests and leave the same service state,
    differing at most in what they print: readFile and
    streamFileContent; updateFile and uploadFile; folderExists(p) and
    fileExists(p + [/]); createFolder(p) and uploadFile(p + [/], empty
    bytes). *)
Theorem methods_that_differ_in_messages (Key : string) (chunkSize : Z)
  (fileData : FileData) (w : World) :
  same_effect (readFile Key chunkSize w) (streamFileContent Key chunkSize w)
  ∧ same_effect (updateFile Key fileData w) (uploadFile Key fileData w)
  ∧ same_effect (folderExists Key w) (fileExists (Key +:+ "/") w)
  ∧ same_effect (createFolder Key w) (uploadFile (Key +:+ "/") (Bytes []) w).
Proof.
  unfold same_effect, readFile, streamFileContent, updateFile, uploadFile,
    folderExists, fileExists, createFolder.
  rewrite !bind_run. cbn [get_self]. rewrite !try_run, !bind_run.
  split; [|split; [|split]].
  - destruct (client_get_object _ _ w) as [[stream|[]] w']; try done.
    unfold lift. by destruct (read_chunks _ _ _ _) as [|[]].
  - by destruct (client_put_object _ _ _ w) as [[[]|[]] w'].
  - destruct (client_head_object _ _ w) as [[[]|exc] w']; [done|].
    destruct exc as [e| | | | |]; try done.
    cbv zeta. destruct (decide (Code e = "404")); [done|].
    by rewrite !bind_run.
  - by destruct (client_put_object _ _ _ w) as [[[]|[]] w'].
Qed.

(** ** The list of the buckets *)




(** ** A negative chunk size *)

Lemma chunks_of_negative (d : bytes) (c : Z) :
  c < 0 → d ≠ [] → chunks_of d c = [d].
Proof.
  intros Hc Hd. rewrite chunks_of_unfold. unfold read.
  replace (c <? 0) with true by lia. cbn [fst snd].
  destruct d; [done|]. cbn [is_empty]. by rewrite chunks_of_nil.
Qed.

(** X22. With a negative chunk size, read() delivers everything at once:
    uploadFileChunked of a non-empty readable source submits the whole
    payload as one part and stores it, and readFile and
    streamFileContent yield the stored object as one chunk. *)
Theorem negative_chunkSize_one_chunk (filePath : string) (d : bytes) (c : Z)
  (w : World) :
  c < 0 → d ≠ [] → serving w →
  let w' := (uploadFileChunked filePath (FileLike d) c w).2 in
  part_bodies (requests w') = part_bodies (requests w) ++ [d]
  ∧ object_at w' filePath = Some d
  ∧ (readFile filePath c w').1 = Return [d]
  ∧ (streamFileContent filePath c w').1 = Return [d].
Proof.
  intros Hc Hd [Hfaults [objects Hbucket]]. cbv zeta.
  destruct w as [inst s reqs out]. cbn [self remote requests] in *.
  destruct (uploadFileChunked_served filePath d c inst s reqs out objects
              Hfaults Hbucket) as (s' & -> & Hfaults' & Hbuckets').
  rewrite chunks_of_negative in * by done. cbn [concat] in Hbuckets'.
  rewrite app_nil_r in Hbuckets'. cbn [snd requests].
  assert (Hobj : object_at
                   (mkWorld inst s'
                      (reqs
                         ++ [create_multipart_upload (bucket_name inst)
                               filePath]
                         ++ part_requests (bucket_name inst) filePath
                              ("upload-" +:+ pretty (upload_counter s)) 1 [d]
                         ++ [complete_multipart_upload (bucket_name inst)
                               filePath (part_list (etag_of s) 1 [d])
                               ("upload-" +:+ pretty (upload_counter s))])
                      (out ++ ["Successfully uploaded file: " +:+ filePath]))
                   filePath = Some d).
  { unfold object_at. cbn [self remote]. rewrite Hbuckets', lookup_insert_eq.
    cbn [mbind option_bind]. apply lookup_insert_eq. }
  split_and!.
  - rewrite part_bodies_app, part_bodies_cons_other, part_bodies_app,
      part_requests_bodies by done.
    by rewrite app_nil_r.
  - done.
  - rewrite (readFile_served _ _ _ d) by done.
    by rewrite chunks_of_negative.
  - rewrite (streamFileContent_served _ _ _ d) by done.
    by rewrite chunks_of_negative.
Qed.

Lemma negative_chunkSize_one_chunk_witness :
  -1 < 0 ∧ hello ≠ [] ∧ serving (demo_world ∅ [])
  ∧ (readFile "greeting.txt" (-1)
       (uploadFileChunked "greeting.txt" (FileLike hello) (-1)
          (demo_world ∅ [])).2).1
    = Return [hello].
Proof.
  assert (H1 : -1 < 0) by lia.
  assert (H2 : hello ≠ []) by discriminate.
  assert (H3 : serving (demo_world ∅ [])).
  { split; [reflexivity|]. eexists. apply lookup_singleton_eq. }
  split; [exact H1|]. split; [exact H2|]. split; [exact H3|].
  apply (negative_chunkSize_one_chunk "greeting.txt" hello (-1)
           (demo_world ∅ []) H1 H2 H3).
Defined.

(** ** A key under a folder does not make the folder *)

(** X23. Uploading a key other than folderPath + [/] does not make the
    folder: when the marker object folderPath + [/] is not stored, after
    uploadFile(filePath, ...) fileExists(filePath) is True while
    folderExists(folderPath) is False and listFolderContents(folderPath)
    raises its [does not exist] exception, also for a filePath under
    folderPath + [/]. *)
Theorem uploadFile_makes_no_folder (folderPath filePath : string)
  (fileData : FileData) (w : World) :
  serving w →
  object_at w (folderPath +:+ "/") = None →
  filePath ≠ folderPath +:+ "/" →
  let w' := (uploadFile filePath fileData w).2 in
  (fileExists filePath w').1 = Return true
  ∧ (folderExists folderPath w').1 = Return false
  ∧ (listFolderContents folderPath w').1
    = Raise (Exception ("Folder " +:+ folderPath +:+ " does not exist")).
Proof.
  intros Hs Hnone Hne. cbv zeta.
  destruct (uploadFile_served filePath fileData w Hs)
    as (w' & -> & _ & [Hfaults _] & _ & _ & Hobj & Hothers).
  cbn [snd].
  assert (He : (folderExists folderPath w').1 = Return false).
  { rewrite folderExists_served, Hothers, Hnone by done.
    by rewrite bool_decide_eq_false_2 by by intros []. }
  split_and!.
  - rewrite fileExists_served, Hobj by done.
    by rewrite bool_decide_eq_true_2 by done.
  - done.
  - by apply listFolderContents_missing.
Qed.

Lemma uploadFile_makes_no_folder_witness :
  serving (demo_world ∅ [])
  ∧ object_at (demo_world ∅ []) ("docs" +:+ "/") = None
  ∧ "docs/a.txt" ≠ "docs" +:+ "/"
  ∧ (folderExists "docs"
       (uploadFile "docs/a.txt" (Bytes hello) (demo_world ∅ [])).2).1
    = Return false.
Proof.
  assert (H1 : serving (demo_world ∅ [])).
  { split; [reflexivity|]. eexists. apply lookup_singleton_eq. }
  assert (H2 : object_at (demo_world ∅ []) ("docs" +:+ "/") = None).
  { unfold object_at. cbn [demo_world remote self buckets].
    rewrite lookup_singleton_eq. apply lookup_empty. }
  assert (H3 : "docs/a.txt" ≠ "docs" +:+ "/") by discriminate.
  split; [exact H1|]. split; [exact H2|]. split; [exact H3|].
  apply (uploadFile_makes_no_folder "docs" "docs/a.txt" (Bytes hello)
           (demo_world ∅ []) H1 H2 H3).
Defined.

(** ** What a listing of a folder holds *)

Lemma substring_whole (a b : string) :
  String.substring 0 (String.length a) (a +:+ b) = a.
Proof.
  induction a as [|c a IH]; [by destruct b|].
  rewrite append_cons. cbn [String.length String.substring]. by rewrite IH.
Qed.

Lemma substring_all (x : string) :
  String.substring 0 (String.length x) x = x.
Proof.
  induction x as [|c x IH]; [done|].
  cbn [String.length String.substring]. by rewrite IH.
Qed.

Lemma str_drop_append (p x : string) : str_drop (String.length p) (p +:+ x) = x.
Proof.
  unfold str_drop. induction p as [|c p IH].
  - cbn [String.length String.append]. rewrite Nat.sub_0_r.
    apply substring_all.
  - rewrite append_cons. cbn [String.length String.substring Nat.sub].
    apply IH.
Qed.

Lemma index_no_slash (x : string) :
  has_slash x = false → String.index 0 "/" x = None.
Proof.
  induction x as [|b x IH]; [done|]. cbn [has_slash].
  intros [Hb Hx]%orb_false_iff. cbn [String.index String.prefix].
  destruct (ascii_dec "/" b) as [<-|Hne]; [done|].
  by rewrite (IH Hx).
Qed.

Lemma index_first_slash (sub rest : string) :
  has_slash sub = false →
  String.index 0 "/" (sub +:+ "/" +:+ rest) = Some (String.length sub).
Proof.
  induction sub as [|b sub IH].
  - intros _. cbn [String.append String.index String.prefix String.length].
    destruct (ascii_dec "/" "/"); [|done]. by destruct rest.
  - cbn [has_slash]. intros [Hb Hx]%orb_false_iff.
    rewrite append_cons. cbn [String.index String.prefix String.length].
    destruct (ascii_dec "/" b) as [<-|Hne]; [done|].
    by rewrite (IH Hx).
Qed.

Lemma append_assoc (a b c : string) : (a +:+ b) +:+ c = a +:+ (b +:+ c).
Proof.
  induction a as [|x a IH]; [done|]. rewrite !append_cons. by rewrite IH.
Qed.

Lemma length_append (a b : string) :
  String.length (a +:+ b) = (String.length a + String.length b)%nat.
Proof.
  induction a as [|x a IH]; [done|]. rewrite append_cons.
  cbn [String.length]. by rewrite IH.
Qed.

Lemma append_inv (p x y : string) : p +:+ x = p +:+ y → x = y.
Proof.
  induction p as [|c p IH]; [done|]. rewrite !append_cons.
  intros [= H]. by apply IH.
Qed.

(** A key right under the prefix is listed as a key, a key further down
    under its common prefix. *)
Lemma classify_child (prefix name : string) :
  has_slash name = false →
  classify prefix (Some "/") (prefix +:+ name) = EKey (prefix +:+ name).
Proof.
  intros H. unfold classify. cbv zeta.
  by rewrite str_drop_append, index_no_slash.
Qed.

Lemma classify_nested (prefix sub rest : string) :
  has_slash sub = false →
  classify prefix (Some "/") (prefix +:+ sub +:+ "/" +:+ rest)
  = EPrefix (prefix +:+ sub +:+ "/").
Proof.
  intros H. unfold classify. cbv zeta.
  rewrite str_drop_append, index_first_slash by done.
  do 2 f_equal. rewrite <- (append_assoc sub "/" rest).
  replace (String.length sub + String.length "/")%nat
    with (String.length (sub +:+ "/")) by apply length_append.
  apply substring_whole.
Qed.

Lemma group_entries_key (seen : option string) (es : list Entry) (k : string) :
  EKey k ∈ es → EKey k ∈ group_entries seen es.
Proof.
  revert seen. induction es as [|[k'|p] es IH]; intros seen;
    cbn [group_entries]; [done| |].
  - rewrite !elem_of_cons. intros [H|H]; [by left|right; by apply IH].
  - rewrite elem_of_cons. intros [H|H]; [done|].
    destruct (decide (seen = Some p)); [by apply IH|].
    right. by apply IH.
Qed.

Lemma group_entries_prefix (seen : option string) (es : list Entry)
  (p : string) :
  EPrefix p ∈ es → seen = Some p ∨ EPrefix p ∈ group_entries seen es.
Proof.
  revert seen. induction es as [|[k|q] es IH]; intros seen;
    cbn [group_entries]; [by intros ?%elem_of_nil| |].
  - rewrite !elem_of_cons. intros [H|H]; [done|].
    destruct (IH seen H); [by left|right; by right].
  - rewrite elem_of_cons. intros [[= ->]|H].
    + destruct (decide (seen = Some q)); [by left|right; by left].
    + destruct (decide (seen = Some q)) as [->|Hne]; [by apply IH|].
      destruct (IH (Some q) H) as [[= ->]|Hin]; right; [by left|by right].
Qed.

(** Every stored key with the prefix is in the listing, as itself or
    under its common prefix. *)
Lemma listing_complete (objects : gmap string bytes) (prefix : string)
  (Delimiter : option string) (k : string) :
  is_Some (objects !! k) → String.prefix prefix k = true →
  classify prefix Delimiter k ∈ listing objects prefix Delimiter.
Proof.
  intros Hk Hp. unfold listing.
  assert (Hin : classify prefix Delimiter k
                ∈ classify prefix Delimiter
                    <$> filter (λ k, String.prefix prefix k = true)
                          (sorted_keys objects)).
  { apply list_elem_of_fmap. exists k. split; [done|].
    apply list_elem_of_filter. split; [done|]. by apply sorted_keys_elem. }
  destruct (classify prefix Delimiter k) as [k'|p].
  - by apply group_entries_key.
  - by destruct (group_entries_prefix None _ _ Hin).
Qed.

Lemma elem_of_concat_inv {A} (x : A) (ls : list (list A)) :
  x ∈ concat ls → ∃ l, l ∈ ls ∧ x ∈ l.
Proof.
  induction ls as [|l ls IH]; cbn [concat]; [by intros ?%elem_of_nil|].
  rewrite elem_of_app. intros [H|H].
  - exists l. split; [by left|done].
  - destruct (IH H) as (l' & Hl' & Hx). exists l'. split; [by right|done].
Qed.

Lemma nonempty_elem {A} (l : list A) (x : A) : x ∈ l → nonempty l = Some l.
Proof. destruct l; [by intros ?%elem_of_nil|done]. Qed.

(** An entry of the listing is on one of its pages. *)
Lemma pages_of_complete (objects : gmap string bytes) (prefix : string)
  (Delimiter : option string) (e : Entry) :
  e ∈ listing objects prefix Delimiter →
  ∃ page, page ∈ pages_of objects prefix Delimiter
    ∧ match e with
      | EKey k =>
          ∃ contents, Contents page = Some contents
                      ∧ mkObjectEntry k ∈ contents
      | EPrefix p =>
          ∃ prefixes, CommonPrefixes page = Some prefixes
                      ∧ mkCommonPrefix p ∈ prefixes
      end.
Proof.
  intros He.
  pose proof (cut_pages_concat MaxKeys [] (listing objects prefix Delimiter))
    as Hc. cbn [app] in Hc. rewrite <- Hc in He.
  apply elem_of_concat_inv in He as (es & Hes & He).
  exists (to_page es). split.
  - unfold pages_of. apply list_elem_of_fmap. by exists es.
  - destruct e as [k|p]; cbn [to_page Contents CommonPrefixes].
    + assert (Hin : mkObjectEntry k
                    ∈ omap (λ e, match e with
                                 | EKey k => Some (mkObjectEntry k)
                                 | EPrefix _ => None
                                 end) es)
        by (apply list_elem_of_omap; by exists (EKey k)).
      rewrite (nonempty_elem _ _ Hin). by eexists.
    + assert (Hin : mkCommonPrefix p
                    ∈ omap (λ e, match e with
                                 | EPrefix p => Some (mkCommonPrefix p)
                                 | EKey _ => None
                                 end) es)
        by (apply list_elem_of_omap; by exists (EPrefix p)).
      rewrite (nonempty_elem _ _ Hin). by eexists.
Qed.

Lemma foldl_append_unless_keeps {X} (g : X → string) (t : string)
  (l : list X) (acc : list string) (x : string) :
  x ∈ acc →
  x ∈ foldl (λ contents o,
               if decide (g o ≠ t) then contents ++ [g o] else contents)
        acc l.
Proof.
  revert acc. induction l as [|o l IH]; intros acc H; [done|].
  cbn [foldl]. apply IH. destruct (decide (g o ≠ t)); [|done].
  apply elem_of_app. by left.
Qed.

Lemma foldl_append_unless_adds {X} (g : X → string) (t : string)
  (l : list X) (acc : list string) (o : X) :
  o ∈ l → g o ≠ t →
  g o ∈ foldl (λ contents o,
                 if decide (g o ≠ t) then contents ++ [g o] else contents)
          acc l.
Proof.
  revert acc. induction l as [|o' l IH]; intros acc;
    [by intros ?%elem_of_nil|].
  rewrite elem_of_cons. intros [->|H] Hne; cbn [foldl]; [|by apply IH].
  apply foldl_append_unless_keeps. rewrite decide_True by done.
  apply elem_of_app. right. by left.
Qed.


(** A loop over the pages whose body only adds names: a name a page
    adds is in the result. *)
Lemma fetch_pages_collects (adds : Page → string → Prop)
  (request : option string → Request) (token : option string)
  (pages : list Page) (body : Page → list string → Py (list string))
  (acc : list string) (w : World) :
  (∀ page a w0, ∃ a',
      body page a w0 = (Return a', w0)
      ∧ (∀ y, y ∈ a → y ∈ a') ∧ (∀ y, adds page y → y ∈ a')) →
  faults (remote w) = [] →
  ∃ names,
    (fetch_pages request token pages body acc w).1 = Return names
    ∧ (∀ y, y ∈ acc → y ∈ names)
    ∧ (∀ page y, page ∈ pages → adds page y → y ∈ names).
Proof.
  intros Hbody. revert token acc w.
  induction pages as [|page pages IH]; intros token acc w Hfaults.
  - exists acc. split_and!; [done|done|]. by intros page y ?%elem_of_nil.
  - cbn [fetch_pages]. rewrite bind_run.
    rewrite remote_call_served by done. rewrite bind_run.
    destruct (Hbody page acc
                (mkWorld (self w) (remote w) (requests w ++ [request token])
                   (stdout w))) as (a' & -> & Hkeep & Hadd).
    destruct (IH (last_listed page) a'
                (mkWorld (self w) (remote w) (requests w ++ [request token])
                   (stdout w)) Hfaults) as (names & Hrun & Hacc & Hpages).
    exists names. split_and!; [done|by auto|].
    intros page' y [->|Hin]%elem_of_cons Hy; [by auto|by eauto].
Qed.

Lemma listFolderContents_page_adds (folderPath : string) (page : Page)
  (acc : list string) (w : World) :
  ∃ names,
    listFolderContents_page folderPath page acc w = (Return names, w)
    ∧ (∀ y, y ∈ acc → y ∈ names)
    ∧ (∀ y, y ≠ folderPath +:+ "/" →
         (∃ contents, Contents page = Some contents
                      ∧ mkObjectEntry y ∈ contents)
         ∨ (∃ prefixes, CommonPrefixes page = Some prefixes
                        ∧ mkCommonPrefix y ∈ prefixes) →
         y ∈ names).
Proof.
  eexists. split; [reflexivity|]. split.
  - intros y Hy.
    destruct (CommonPrefixes page) as [prefixes|];
      [apply (foldl_append_unless_keeps Prefix)|];
      (destruct (Contents page) as [contents|];
         [by apply (foldl_append_unless_keeps Key)|done]).
  - intros y Hne [(contents & -> & Hin)|(prefixes & -> & Hin)].
    + destruct (CommonPrefixes page) as [prefixes|];
        [apply (foldl_append_unless_keeps Prefix)|];
        by apply (foldl_append_unless_adds Key _ _ _ (mkObjectEntry y)).
    + by apply (foldl_append_unless_adds Prefix _ _ _ (mkCommonPrefix y)).
Qed.

(** X24. On a service that answers and holds the marker folderPath + [/],
    listFolderContents(folderPath) returns a list that holds every
    stored key folderPath + [/] + name with a non-empty name without
    [/], and, for every stored key further down, the prefix folderPath +
    [/] + sub + [/] up to the first [/] after the folder, over all the
    pages of the listing. *)
Theorem listFolderContents_lists_children (folderPath : string) (w : World) :
  serving w →
  is_Some (object_at w (folderPath +:+ "/")) →
  ∃ names,
    (listFolderContents folderPath w).1 = Return names
    ∧ (∀ name,
         name ≠ "" → has_slash name = false →
         is_Some (object_at w ((folderPath +:+ "/") +:+ name)) →
         (folderPath +:+ "/") +:+ name ∈ names)
    ∧ (∀ sub rest,
         has_slash sub = false →
         is_Some (object_at w ((folderPath +:+ "/") +:+ sub +:+ "/" +:+ rest)) →
         (folderPath +:+ "/") +:+ sub +:+ "/" ∈ names).
Proof.
  intros [Hfaults [objects Hbucket]] Hmarker.
  rewrite listFolderContents_run. cbv zeta.
  rewrite (object_at_lookup _ objects) in Hmarker by done.
  destruct Hmarker as [marker Hmarker].
  set (w1 := (print ("Listing folder contents of " +:+ " " +:+ folderPath)
                w).2).
  assert (Hexists : folderExists folderPath w1
                    = (Return true,
                       mkWorld (self w) (remote w)
                         (requests w
                            ++ [head_object (bucket_name (self w))
                                  (folderPath +:+ "/")])
                         (stdout w1))).
  { unfold folderExists. rewrite bind_run. cbn [get_self].
    rewrite try_run, bind_run. unfold client_head_object.
    rewrite remote_call_served by done. unfold serve_head_object.
    cbn [w1 print snd remote self]. by rewrite Hbucket, Hmarker. }
  rewrite Hexists. clear Hexists.
  rewrite try_run. unfold paginate_list_objects_v2, for_page_in.
  cbn [remote self]. rewrite Hbucket.
  match goal with
  | |- context [fetch_pages ?request None ?pages ?body [] ?w0] =>
      destruct (fetch_pages_collects
                  (λ page y,
                     y ≠ folderPath +:+ "/"
                     ∧ ((∃ contents, Contents page = Some contents
                                     ∧ mkObjectEntry y ∈ contents)
                        ∨ (∃ prefixes, CommonPrefixes page = Some prefixes
                                       ∧ mkCommonPrefix y ∈ prefixes)))
                  request None pages body [] w0)
        as (names & Hrun & _ & Hpages);
        [|done|destruct (fetch_pages request None pages body [] w0)
                 as [o w3]]
  end.
  { intros page a w0.
    destruct (listFolderContents_page_adds folderPath page a w0)
      as (a' & Hrun & Hkeep & Hadd).
    exists a'. split_and!; [done|done|]. intros y [Hne Hy]. by apply Hadd. }
  cbn [fst] in Hrun. subst o. exists names. split; [done|].
  assert (Hlisted : ∀ k,
            is_Some (objects !! k) →
            String.prefix (folderPath +:+ "/") k = true →
            entry_name (classify (folderPath +:+ "/") (Some "/") k)
            ≠ folderPath +:+ "/" →
            entry_name (classify (folderPath +:+ "/") (Some "/") k) ∈ names).
  { intros k Hk Hp Hne.
    pose proof (listing_complete objects (folderPath +:+ "/") (Some "/") k
                  Hk Hp) as Hin.
    apply pages_of_complete in Hin as (page & Hpage & Hin).
    apply (Hpages page); [done|]. split; [done|].
    destruct (classify _ _ k); [by left|by right]. }
  split.
  - intros name Hname Hslash Hk.
    rewrite (object_at_lookup _ objects) in Hk by done.
    specialize (Hlisted _ Hk (prefix_append _ _)).
    rewrite classify_child in Hlisted by done. apply Hlisted.
    cbn [entry_name]. intros H.
    rewrite <- (append_empty_r (folderPath +:+ "/")) in H at 2.
    apply append_inv in H. done.
  - intros sub rest Hslash Hk.
    rewrite (object_at_lookup _ objects) in Hk by done.
    specialize (Hlisted _ Hk (prefix_append _ _)).
    rewrite classify_nested in Hlisted by done. apply Hlisted.
    cbn [entry_name]. intros H.
    rewrite <- (append_empty_r (folderPath +:+ "/")) in H at 2.
    apply append_inv in H. by destruct sub.
Qed.

Lemma listFolderContents_lists_children_witness :
  serving (demo_world docs_folder [])
  ∧ is_Some (object_at (demo_world docs_folder []) ("docs" +:+ "/"))
  ∧ ∃ names,
      (listFolderContents "docs" (demo_world docs_folder [])).1 = Return names
      ∧ "docs/a.txt" ∈ names.
Proof.
  assert (H1 : serving (demo_world docs_folder [])).
  { split; [reflexivity|]. eexists. apply lookup_singleton_eq. }
  assert (H2 : is_Some (object_at (demo_world docs_folder [])
                          ("docs" +:+ "/"))).
  { exists []. vm_compute. reflexivity. }
  split; [exact H1|]. split; [exact H2|].
  destruct (listFolderContents_lists_children "docs"
              (demo_world docs_folder []) H1 H2) as (names & Hrun & Hfiles & _).
  exists names. split; [exact Hrun|].
  apply (Hfiles "a.txt"); [done|reflexivity|].
  exists hello. vm_compute. reflexivity.
Defined.
